(** * Hopium Lab client: stream decoding, post aggregation and the demo wallet

    A shallow embedding of the client-side logic of the web frontend:
    - the demo wallet hook [useWallet] ([hooks/useWallet.ts]);
    - the server-sent-event read loop shared by [runSimulation]
      ([app/page.tsx]) and [startHarness] ([unnamed/part_006], the lab page with the wallet);
    - the per-frame handlers of both loops;
    - [groupTweetsIntoThreads] ([components/TweetThread.tsx]);
    - the aggregations of [SentimentChart] and [PersonaImpact].

    Numbers: token amounts and counters are integers ([Z] or [nat]);
    sentiments and percentages are JavaScript doubles, modelled here as
    exact rationals [Q] (rounding is not modelled). *)

From Stdlib Require Import ZArith QArith Lia Lqa Sorted.
From stdpp Require Import base list gmap strings pretty.

Open Scope Z_scope.

(** ** Demo wallet ([useWallet]) *)
Module Wallet.

Definition INITIAL_BALANCE : Z := 1000.

Record WalletState := mkWalletState {
    balance : Z;
    totalStaked : Z;
    totalBurned : Z;
    simulationsRun : Z
  }.

Definition DEFAULT_STATE : WalletState :=
    mkWalletState INITIAL_BALANCE 0 0 0.

  (** The two pieces of React state of the hook. Each callback below is
      the one of the latest render, so it reads the state as it is when
      it is called. *)
Record Hook := mkHook {
    wallet : WalletState;
    pendingStake : option Z
  }.

Definition initial : Hook := mkHook DEFAULT_STATE None.

  (** [BURN_RATE = 0.05] and [Math.floor(pendingStake * BURN_RATE)]: for an
      integer stake of safe magnitude the double product rounds to a value
      whose floor is [pendingStake / 20] (floor division). *)
Definition burn (p : Z) : Z := p / 20.

  (** [stake(amount)]: returns [false] and changes nothing when
      [amount > wallet.balance]. *)
Definition stake (amount : Z) (h : Hook) : bool * Hook :=
    if amount >? balance (wallet h) then (false, h)
    else (true,
          mkHook (mkWalletState (balance (wallet h) - amount)
                                (totalStaked (wallet h))
                                (totalBurned (wallet h))
                                (simulationsRun (wallet h)))
                 (Some amount)).

Definition completeSimulation (h : Hook) : Hook :=
    match pendingStake h with
    | None => h
    | Some p =>
        let burnAmount := burn p in
        let returnAmount := p - burnAmount in
        mkHook (mkWalletState (balance (wallet h) + returnAmount)
                              (totalStaked (wallet h) + p)
                              (totalBurned (wallet h) + burnAmount)
                              (simulationsRun (wallet h) + 1))
               None
    end.

Definition refundStake (h : Hook) : Hook :=
    match pendingStake h with
    | None => h
    | Some p =>
        mkHook (mkWalletState (balance (wallet h) + p)
                              (totalStaked (wallet h))
                              (totalBurned (wallet h))
                              (simulationsRun (wallet h)))
               None
    end.

Definition canAfford (amount : Z) (h : Hook) : bool :=
    amount <=? balance (wallet h).

Definition resetWallet (_ : Hook) : Hook := mkHook DEFAULT_STATE None.

Definition claimFaucet (h : Hook) : Hook :=
    if balance (wallet h) <=? 0 then
      mkHook (mkWalletState INITIAL_BALANCE
                            (totalStaked (wallet h))
                            (totalBurned (wallet h))
                            (simulationsRun (wallet h)))
             (pendingStake h)
    else h.

  (** The mutating operations a caller can issue. *)
Inductive op :=
  | OStake (amount : Z)
  | OComplete
  | ORefund
  | OFaucet
  | OReset.

Definition step (o : op) (h : Hook) : Hook :=
    match o with
    | OStake a => snd (stake a h)
    | OComplete => completeSimulation h
    | ORefund => refundStake h
    | OFaucet => claimFaucet h
    | OReset => resetWallet h
    end.

  (** The states after each operation of a sequence. *)
Fixpoint trace (h : Hook) (os : list op) : list Hook :=
    match os with
    | [] => []
    | o :: os' => let h' := step o h in h' :: trace h' os'
    end.

  (** The stake a caller sees as [pendingStake ?? 0]. *)
Definition pending_amount (h : Hook) : Z :=
    match pendingStake h with Some p => p | None => 0 end.

  (** Tokens accounted for: spendable, locked in the pending stake, burned. *)
Definition held (h : Hook) : Z :=
    balance (wallet h) + pending_amount h + totalBurned (wallet h).

End Wallet.

(** ** The wallet callbacks as closures of a render

    Each callback returned by [useWallet] reads [wallet.balance] and
    [pendingStake] from the render that created it ([snap]), while its
    [setWallet(prev => ...)] and [setPendingStake] act on the state at the
    time of the call ([h]). [Wallet.stake] and the others are the case
    [snap = h]. *)
Module Render.
  Import Wallet.

Definition stake_at (snap : Hook) (amount : Z) (h : Hook) : bool * Hook :=
    if amount >? balance (wallet snap) then (false, h)
    else (true,
          mkHook (mkWalletState (balance (wallet h) - amount)
                                (totalStaked (wallet h))
                                (totalBurned (wallet h))
                                (simulationsRun (wallet h)))
                 (Some amount)).

Definition completeSimulation_at (snap h : Hook) : Hook :=
    match pendingStake snap with
    | None => h
    | Some p =>
        let burnAmount := burn p in
        let returnAmount := p - burnAmount in
        mkHook (mkWalletState (balance (wallet h) + returnAmount)
                              (totalStaked (wallet h) + p)
                              (totalBurned (wallet h) + burnAmount)
                              (simulationsRun (wallet h) + 1))
               None
    end.

Definition refundStake_at (snap h : Hook) : Hook :=
    match pendingStake snap with
    | None => h
    | Some p =>
        mkHook (mkWalletState (balance (wallet h) + p)
                              (totalStaked (wallet h))
                              (totalBurned (wallet h))
                              (simulationsRun (wallet h)))
               None
    end.

End Render.

(** ** [handleRunSimulation] of the [Arena] component ([app/page.tsx], from line 394) *)
Module Arena.
  Import Wallet Render.

  (** The wallet effects of one click, all callbacks taken from the render
      [snap] of the click. [fields_ok] is [tokenName.trim() && ticker.trim()];
      [response_ok] whether the request and [response.json()] succeed. The
      first component is the message passed to [setError]. *)
Definition handleRunSimulation (fields_ok : bool) (snap : Hook) (stake : Z)
      (response_ok : bool) : option string * Hook :=
    if negb (fields_ok && canAfford stake snap) then (None, snap)
    else
      let '(ok, h1) := stake_at snap stake snap in
      if negb ok then (Some "Insufficient balance"%string, h1)
      else if response_ok then (None, completeSimulation_at snap h1)
      else (Some "Simulation failed. Refunding stake."%string, refundStake_at snap h1).

  (** [setHistory(prev => [entry, ...prev.slice(0, 49)])] *)
Definition add_history {A : Type} (entry : A) (prev : list A) : list A :=
    entry :: List.firstn 49 prev.

End Arena.

(** ** Posts ([TweetData] in [components/Tweet.tsx]) *)
Module Data.

Inductive TweetType := Original | Reply | Quote.

Record TweetData := mkTweet {
    id : string;
    author_name : string;
    author_handle : string;
    author_type : string;
    content : string;
    hour : nat;
    likes : nat;
    retweets : nat;
    replies : nat;
    sentiment : Q;
    tweet_type : option TweetType;
    is_reply_to : option string;
    quotes_tweet : option string
  }.

  (** JavaScript truthiness of an optional string field: [null],
      [undefined] and [""] are falsy. *)
Definition truthy (o : option string) : bool :=
    match o with
    | Some s => negb (String.eqb s "")
    | None => false
    end.

  (** [a || b] on optional strings. *)
Definition or_str (a : option string) (b : option string) : option string :=
    if truthy a then a else b.

  (** A value a [try] block throws: an [Error] object with its [name] and
      [message] ([fetch], [response.json()] and [reader.read()] reject with
      [TypeError], [SyntaxError] or [DOMException] objects; [new Error(...)]
      has name ["Error"]), or a value that is not an [Error]. *)
Inductive Thrown :=
  | JsError (name message : string)
  | NonError.

  (** [err instanceof Error ? err.message : 'Unknown error'] *)
Definition err_message (t : Thrown) : string :=
    match t with
    | JsError _ m => m
    | NonError => "Unknown error"%string
    end.

  (** [(err as Error).name === 'AbortError'] *)
Definition is_abort (t : Thrown) : bool :=
    match t with
    | JsError n _ => String.eqb n "AbortError"
    | NonError => false
    end.

  (** The JSON body of a rejected response, as far as
      [const err = await response.json(); throw new Error(err.detail || d)]
      reads it. *)
Inductive ErrBody :=
  | DetailString (detail : string)  (* [err.detail] is a string *)
  | DetailFalsy                     (* missing, [null], [false] or [0] *)
  | DetailValue (text : string)     (* another truthy value, [String(err.detail)] is [text] *)
  | BodyThrows (t : Thrown).        (* [response.json()] or the read of [.detail] throws *)

  (** What [const err = await res.json(); throw new Error(err.detail || d)]
      throws. *)
Definition rejected_error (b : ErrBody) (d : string) : Thrown :=
    match b with
    | DetailString s => JsError "Error" (if String.eqb s "" then d else s)
    | DetailFalsy => JsError "Error" d
    | DetailValue v => JsError "Error" v
    | BodyThrows t => t
    end.

End Data.

(** ** The event-stream read loop

    [runSimulation] and [startHarness] share this loop:
    {v
      buffer += decoder.decode(value, { stream: true })
      const lines = buffer.split('\n')
      buffer = lines.pop() || ''
      for (const line of lines) ...
    v}
    and [if (done) break] leaves whatever is in [buffer] unprocessed.
    The [TextDecoder] is a parameter [decode] with its own state. *)
Module Sse.

Definition nl : Ascii.ascii := Ascii.ascii_of_nat 10.

  (** [s.split('\n')]: never empty; [""] splits to [[""]]. *)
Fixpoint split_nl (s : string) : list string :=
    match s with
    | EmptyString => [EmptyString]
    | String c s' =>
        if Ascii.eqb c nl then EmptyString :: split_nl s'
        else match split_nl s' with
             | w :: ws => String c w :: ws
             | [] => [String c EmptyString]
             end
    end.

  (** Appending one decoded chunk to the buffer: the complete lines to
      handle, and the new buffer ([lines.pop() || '']). *)
Definition feed_chunk (buf text : string) : list string * string :=
    let ls := split_nl (String.append buf text) in
    (List.removelast ls, List.last ls EmptyString).

  (** The lines handed to the per-line handler, in order, for a stream
      read as [chunks] (the loop stops at [done]). *)
Fixpoint read_loop {D : Type} (decode : D -> list Byte.byte -> D * string)
      (ds : D) (buf : string) (chunks : list (list Byte.byte)) : list string :=
    match chunks with
    | [] => []
    | c :: cs =>
        let '(ds', text) := decode ds c in
        let '(ls, buf') := feed_chunk buf text in
        ls ++ read_loop decode ds' buf' cs
    end.

  (** The text the decoder produces for the chunks, read by read. *)
Fixpoint decoded_text {D : Type} (decode : D -> list Byte.byte -> D * string)
      (ds : D) (chunks : list (list Byte.byte)) : string :=
    match chunks with
    | [] => EmptyString
    | c :: cs =>
        let '(ds', text) := decode ds c in
        String.append text (decoded_text decode ds' cs)
    end.

  (** [line.startsWith('data: ')] and [line.slice(6)]. *)
Definition data_prefix : string := "data: ".

Definition is_data_line (line : string) : bool := String.prefix data_prefix line.

Definition slice6 (line : string) : string :=
    String.substring 6 (String.length line) line.

  (** The payloads of the data lines, in order, that reach [JSON.parse]. *)
Definition payloads (lines : list string) : list string :=
    List.map slice6 (List.filter is_data_line lines).

  (** The decoded frames: [parse] stands for [JSON.parse] followed by the
      read of the [type] field ([None]: the parse threw). *)
Definition frames {F : Type} (parse : string -> option F) (lines : list string)
      : list F :=
    omap parse (payloads lines).

  (** [new TextDecoder()] on ASCII input: no state, one character per byte. *)
Definition ascii_decode (_ : unit) (bs : list Byte.byte) : unit * string :=
    (tt, String.string_of_list_byte bs).

  (** Text without a line break. *)
Fixpoint no_nl (s : string) : bool :=
    match s with
    | EmptyString => true
    | String c s' => negb (Ascii.eqb c nl) && no_nl s'
    end.

  (** Newline-terminated lines, one after the other. *)
Fixpoint unlines (ls : list string) : string :=
    match ls with
    | [] => EmptyString
    | l :: ls' => String.append l (String nl (unlines ls'))
    end.

  (** The complete lines of a text: all pieces of its split but the last. *)
Definition lines_of (s : string) : list string := List.removelast (split_nl s).

  (** [decoder.decode(value, { stream: true })] is chunking-invariant: two
      successive reads give the text of one read of both chunks. *)
Definition chunking_invariant {D : Type} (decode : D -> list Byte.byte -> D * string)
      : Prop :=
    forall ds c1 c2,
      String.append (snd (decode ds c1)) (snd (decode (fst (decode ds c1)) c2)) =
      snd (decode ds (c1 ++ c2)).

End Sse.

(** ** [runSimulation] ([app/page.tsx]) *)
Module SingleRun.
  Import Data.

Inductive Outcome := moon | cult_classic | pump_and_dump | slow_bleed | rug.

Record SimulationResult := mkResult {
    viral_coefficient : Q;
    fud_resistance : Q;
    predicted_outcome : Outcome;
    confidence : Q
  }.

  (** The payload of a [data:] line, by its [type] field. *)
Inductive Frame :=
  | FTweet (tweet : TweetData)
  | FProgress (hr total_hours : Z) (momentum : Q)
  | FResult (result : SimulationResult)
  | FError (message : string)
  | FOther (type : string).

Record Progress := mkProgress { p_hour : Z; p_total : Z; p_momentum : Q }.

  (** The component state touched by the run, with the number of calls of
      the wallet callbacks it issues. *)
Record SimState := mkSim {
    tweets : list TweetData;
    progress : option Progress;
    result : option SimulationResult;
    error : option string;
    isRunning : bool;
    completeCalls : nat;
    refundCalls : nat
  }.

Definition set_tweets (st : SimState) (ts : list TweetData) : SimState :=
    mkSim ts (progress st) (result st) (error st) (isRunning st)
          (completeCalls st) (refundCalls st).

Definition set_progress (st : SimState) (p : option Progress) : SimState :=
    mkSim (tweets st) p (result st) (error st) (isRunning st)
          (completeCalls st) (refundCalls st).

  (** A thrown [Error] carries its message. *)
Definition Exc (A : Type) : Type := string + A.

  (** The body of the inner [try] for one parsed frame. *)
Definition handle_frame (st : SimState) (f : Frame) : Exc SimState :=
    match f with
    | FTweet t => inr (set_tweets st (tweets st ++ [t]))
    | FProgress h tot m => inr (set_progress st (Some (mkProgress h tot m)))
    | FResult r =>
        (* setResult(data.result); wallet.completeSimulation() *)
        inr (mkSim (tweets st) (progress st) (Some r) (error st) (isRunning st)
                   (S (completeCalls st)) (refundCalls st))
    | FError m => inl m          (* throw new Error(data.message) *)
    | FOther _ => inr st
    end.

  (** One line of the loop: the inner [try { ... } catch { }] around
      [JSON.parse] and the dispatch. *)
Definition handle_line (parse : string -> option Frame) (st : SimState)
      (line : string) : SimState :=
    if Sse.is_data_line line then
      let body :=
        match parse (Sse.slice6 line) with
        | None => inl "SyntaxError"%string
        | Some f => handle_frame st f
        end in
      match body with
      | inl _ => st                (* Ignore parse errors for incomplete JSON *)
      | inr st' => st'
      end
    else st.

  (** How the request and the read of its stream turn out. *)
Inductive Response :=
  | RFetchFails (t : Thrown)                          (* [fetch] rejects *)
  | RNotOk (body : ErrBody)                           (* [!response.ok] *)
  | RNoBody                                           (* [response.body] is null *)
  | ROk (chunks : list (list Byte.byte))              (* read until [done] *)
  | ROkReadFails (chunks : list (list Byte.byte)) (t : Thrown).
                                   (* [reader.read()] rejects after [chunks] *)

Definition start_state : SimState := mkSim [] None None None true 0 0.

  (** [catch (err) { setError(...); wallet.refundStake() }] *)
Definition sim_catch (st : SimState) (t : Thrown) : SimState :=
    mkSim (tweets st) (progress st) (result st) (Some (err_message t)) (isRunning st)
          (completeCalls st) (S (refundCalls st)).

Definition runSimulation {D : Type} (parse : string -> option Frame)
      (decode : D -> list Byte.byte -> D * string) (ds : D) (resp : Response)
      : SimState :=
    let st0 := start_state in
    (* the state when the [try] block ends, and what it threw *)
    let '(st, thrown) :=
      match resp with
      | RFetchFails t => (st0, Some t)
      | RNotOk b => (st0, Some (rejected_error b "Simulation failed"))
      | RNoBody => (st0, Some (JsError "Error" "No response body"))
      | ROk chunks =>
          (fold_left (handle_line parse) (Sse.read_loop decode ds EmptyString chunks) st0,
           None)
      | ROkReadFails chunks t =>
          (fold_left (handle_line parse) (Sse.read_loop decode ds EmptyString chunks) st0,
           Some t)
      end in
    let st1 := match thrown with Some t => sim_catch st t | None => st end in
    (* finally { setIsRunning(false); setProgress(null) } *)
    mkSim (tweets st1) None (result st1) (error st1) false
          (completeCalls st1) (refundCalls st1).

Definition tweet_of (f : Frame) : option TweetData :=
    match f with FTweet t => Some t | _ => None end.

  (** The posts carried by the [tweet] frames of a list of lines. *)
Definition tweets_in (parse : string -> option Frame) (lines : list string)
      : list TweetData :=
    omap tweet_of (Sse.frames parse lines).

Definition result_of (f : Frame) : option SimulationResult :=
    match f with FResult r => Some r | _ => None end.

  (** The results carried by the [result] frames of a list of lines. *)
Definition results_in (parse : string -> option Frame) (lines : list string)
      : list SimulationResult :=
    omap result_of (Sse.frames parse lines).

End SingleRun.

(** ** [startHarness] and [handleHarnessEvent] ([unnamed/part_006], the lab page with the wallet) *)
Module Harness.
  Import Data.

  (** [event.idea], each field possibly missing. *)
Record Idea := mkIdea {
    i_ticker : option string;
    i_name : option string;
    i_strategy : option string;
    i_meme_style : option string;
    i_hook : option string
  }.

Record Experiment := mkExperiment {
    e_id : string;
    e_ticker : string;
    e_name : string;
    e_strategy : string;
    e_meme_style : string;
    e_hook : string;
    e_score : option Q;
    e_status : string;
    e_outcome : option string;
    e_progress : option (Z * Z)
  }.

  (** A harness event by its [type] field. *)
Inductive HEvent :=
  | EStarted (experiment_id : string) (idea : option Idea)
      (experiment_index total_experiments : Z)
  | ECompleted (experiment_id : string) (idea : option Idea) (score : option Q)
      (predicted_outcome : option string) (experiment_index total_experiments : Z)
  | ESimProgress (hr total_hours : Z)
  | ERunCompleted
  | EDone
  | EError (message : string)
  | EOther (type : string).

Record HState := mkH {
    h_running : bool;
    experiments : list Experiment;
    currentExperiment : option Experiment;
    h_error : option string;
    runProgress : option (Z * Z);
    h_completeCalls : nat;
    h_refundCalls : nat;
    finalRefresh : bool
  }.

Definition field (f : Idea -> option string) (idea : option Idea) : option string :=
    match idea with Some i => f i | None => None end.

Definition str_or (o : option string) (d : string) : string :=
    match or_str o (Some d) with Some s => s | None => d end.

Definition cur_field (f : Experiment -> string) (c : option Experiment) : option string :=
    match c with Some e => Some (f e) | None => None end.

  (** [handleHarnessEvent]. [cur] is [currentExperiment] as captured by the
      closure: the value of the render [startHarness] was called from. *)
Definition handleHarnessEvent (cur : option Experiment) (st : HState) (ev : HEvent)
      : HState :=
    match ev with
    | EStarted eid idea idx tot =>
        let newExp :=
          mkExperiment eid
            (str_or (field i_ticker idea) "UNK") (str_or (field i_name idea) "Unknown")
            (str_or (field i_strategy idea) "") (str_or (field i_meme_style idea) "")
            (str_or (field i_hook idea) "") None "running" None None in
        mkH (h_running st) (experiments st) (Some newExp) (h_error st)
            (Some (idx - 1, tot)) (h_completeCalls st) (h_refundCalls st) (finalRefresh st)
    | ECompleted eid idea score outcome idx tot =>
        let fb f g d := str_or (or_str (field f idea) (cur_field g cur)) d in
        let completedExp :=
          mkExperiment eid
            (fb i_ticker e_ticker "UNK") (fb i_name e_name "Unknown")
            (fb i_strategy e_strategy "") (fb i_meme_style e_meme_style "")
            (fb i_hook e_hook "") score "completed"
            (if truthy outcome then outcome else None) None in
        mkH (h_running st) (experiments st ++ [completedExp]) None (h_error st)
            (Some (idx, tot)) (h_completeCalls st) (h_refundCalls st) (finalRefresh st)
    | ESimProgress hr tot =>
        match cur with
        | Some c =>
            let c' := mkExperiment (e_id c) (e_ticker c) (e_name c) (e_strategy c)
                        (e_meme_style c) (e_hook c) (e_score c) (e_status c)
                        (e_outcome c) (Some (hr, tot)) in
            mkH (h_running st) (experiments st) (Some c') (h_error st)
                (runProgress st) (h_completeCalls st) (h_refundCalls st) (finalRefresh st)
        | None => st
        end
    | ERunCompleted =>
        mkH false (experiments st) (currentExperiment st) (h_error st)
            (runProgress st) (h_completeCalls st) (h_refundCalls st) (finalRefresh st)
    | EError m =>
        mkH (h_running st) (experiments st) (currentExperiment st) (Some m)
            (runProgress st) (h_completeCalls st) (h_refundCalls st) (finalRefresh st)
    | EDone | EOther _ => st
    end.

Definition ends_run (ev : HEvent) : bool :=
    match ev with EDone | ERunCompleted => true | _ => false end.

  (** The [for (const line of lines)] body; [true] when it [return]s. *)
Fixpoint harness_lines (parse : string -> option HEvent) (cur : option Experiment)
      (st : HState) (lines : list string) : HState * bool :=
    match lines with
    | [] => (st, false)
    | l :: ls =>
        if Sse.is_data_line l then
          match parse (Sse.slice6 l) with
          | None => harness_lines parse cur st ls       (* Ignore parse errors *)
          | Some ev =>
              let st' := handleHarnessEvent cur st ev in
              if ends_run ev then
                (* setIsRunning(false); wallet.completeSimulation();
                   fetchLeaderboard(); fetchLearnings(); fetchPastExperiments() *)
                (mkH false (experiments st') (currentExperiment st') (h_error st')
                     (runProgress st') (S (h_completeCalls st')) (h_refundCalls st')
                     true, true)
              else harness_lines parse cur st' ls
          end
        else harness_lines parse cur st ls
    end.

  (** A line whose event ends the loop ([done] or [run_completed]). *)
Definition is_end_line (parse : string -> option HEvent) (l : string) : bool :=
    Sse.is_data_line l &&
    match parse (Sse.slice6 l) with Some ev => ends_run ev | None => false end.

Definition has_end_line (parse : string -> option HEvent) (ls : list string) : bool :=
    existsb (is_end_line parse) ls.

  (** How the two requests of [startHarness] and the read of the stream turn
      out. *)
Inductive Responses :=
  | StartFetchFails (t : Thrown)        (* [fetch('/harness/run')] rejects *)
  | StartNotOk (body : ErrBody)         (* [!startRes.ok] *)
  | StartBodyThrows (t : Thrown)        (* [await startRes.json()] rejects *)
  | StreamFetchFails (t : Thrown)       (* [fetch('/harness/stream')] rejects,
                                           an [AbortError] after [stop()] *)
  | StreamNotOk                         (* [!streamRes.ok] *)
  | StreamNoBody                        (* [streamRes.body] is null *)
  | StreamOk (chunks : list (list Byte.byte))   (* read until [done] *)
  | StreamReadFails (chunks : list (list Byte.byte)) (t : Thrown).
                        (* [reader.read()] rejects after [chunks], an
                           [AbortError] after [stop()] *)

Definition start_state : HState :=
    mkH true [] None None None 0 0 false.

  (** [catch (err) { if (name !== 'AbortError') { setError(...);
      wallet.refundStake() } }] *)
Definition harness_catch (st : HState) (t : Thrown) : HState :=
    if is_abort t then st
    else mkH (h_running st) (experiments st) (currentExperiment st)
             (Some (err_message t)) (runProgress st) (h_completeCalls st)
             (S (h_refundCalls st)) (finalRefresh st).

  (** [startHarness] (no [stop()] apart from the [AbortError] it causes). *)
Definition startHarness {D : Type} (parse : string -> option HEvent)
      (decode : D -> list Byte.byte -> D * string) (ds : D)
      (cur : option Experiment) (resp : Responses) : HState :=
    let st0 := start_state in
    (* the state when the [try] block ends, and what it threw *)
    let '(st, thrown) :=
      match resp with
      | StartFetchFails t | StartBodyThrows t | StreamFetchFails t => (st0, Some t)
      | StartNotOk b => (st0, Some (rejected_error b "Failed to start harness"))
      | StreamNotOk => (st0, Some (JsError "Error" "Failed to connect to stream"))
      | StreamNoBody => (st0, Some (JsError "Error" "No response body"))
      | StreamOk chunks =>
          (fst (harness_lines parse cur st0 (Sse.read_loop decode ds EmptyString chunks)),
           None)
      | StreamReadFails chunks t =>
          let '(st, returned) :=
            harness_lines parse cur st0 (Sse.read_loop decode ds EmptyString chunks) in
          (* after a [return] the failing read is never reached *)
          (st, if returned then None else Some t)
      end in
    let st1 := match thrown with Some t => harness_catch st t | None => st end in
    (* finally { setIsRunning(false) } *)
    mkH false (experiments st1) (currentExperiment st1) (h_error st1)
        (runProgress st1) (h_completeCalls st1) (h_refundCalls st1) (finalRefresh st1).

  (** A line that reaches [handleHarnessEvent] as [simulation_progress]. *)
Definition is_progress_line (parse : string -> option HEvent) (l : string) : bool :=
    Sse.is_data_line l &&
    match parse (Sse.slice6 l) with Some (ESimProgress _ _) => true | _ => false end.

End Harness.

(** ** Staking before a harness run ([unnamed/part_006]) *)
Module Launch.

Definition HARNESS_STAKE_PER_EXPERIMENT : Z := 50.

Definition requiredStake (max_experiments : Z) : Z :=
    max_experiments * HARNESS_STAKE_PER_EXPERIMENT.

  (** [handleLaunchClick]: [inl] is the message passed to [setError],
      [inr] opens the staking confirmation. *)
Definition handleLaunchClick (max_experiments : Z) (h : Wallet.Hook) : string + unit :=
    if negb (Wallet.canAfford (requiredStake max_experiments) h) then
      inl ("Insufficient balance. Need " +:+ pretty (requiredStake max_experiments) +:+
           " $HOPIUM for " +:+ pretty max_experiments +:+ " experiments.")%string
    else inr tt.

  (** [confirmAndStartHarness]: [inl] is the message passed to [setError];
      [inr] is the wallet with which [startHarness()] is called. *)
Definition confirmAndStartHarness (max_experiments : Z) (h : Wallet.Hook)
      : string + Wallet.Hook :=
    let '(ok, h') := Wallet.stake (requiredStake max_experiments) h in
    if negb ok then inl "Failed to stake tokens"%string else inr h'.

End Launch.

(** ** [groupTweetsIntoThreads] ([components/TweetThread.tsx]) *)
Module Threads.
  Import Data.

Record Thread := mkThread {
    parent : TweetData;
    t_replies : list TweetData;
    t_quotes : list TweetData
  }.

  (** [tweet.tweet_type === 'original' || !tweet.tweet_type] *)
Definition is_root (t : TweetData) : bool :=
    match tweet_type t with
    | Some Original | None => true
    | _ => false
    end.

  (** [usedIds], a [Set<string>]. *)
Definition mem (x : string) (used : list string) : bool :=
    existsb (String.eqb x) used.

  (** [threads.find(t => t.parent.id === target)] followed by a push onto
      that thread's replies ([in_quotes = false]) or quotes; [None] when no
      thread is found. *)
Fixpoint attach (in_quotes : bool) (target : string) (t : TweetData)
      (threads : list Thread) : option (list Thread) :=
    match threads with
    | [] => None
    | th :: ths =>
        if String.eqb (id (parent th)) target then
          Some ((if in_quotes then mkThread (parent th) (t_replies th) (t_quotes th ++ [t])
                 else mkThread (parent th) (t_replies th ++ [t]) (t_quotes th)) :: ths)
        else option_map (cons th) (attach in_quotes target t ths)
    end.

  (** The target a non-root tweet is attached to, if its branch applies. *)
Definition target (t : TweetData) : option (bool * string) :=
    match tweet_type t with
    | Some Reply =>
        if truthy (is_reply_to t) then
          option_map (fun s => (false, s)) (is_reply_to t) else None
    | Some Quote =>
        if truthy (quotes_tweet t) then
          option_map (fun s => (true, s)) (quotes_tweet t) else None
    | _ => None
    end.

  (** The second [forEach]. *)
Fixpoint pass2 (threads : list Thread) (used : list string) (ts : list TweetData)
      : list Thread * list string :=
    match ts with
    | [] => (threads, used)
    | t :: ts' =>
        if mem (id t) used then pass2 threads used ts'
        else match target t with
             | Some (q, tgt) =>
                 match attach q tgt t threads with
                 | Some threads' => pass2 threads' (id t :: used) ts'
                 | None => pass2 threads used ts'
                 end
             | None => pass2 threads used ts'
             end
    end.

Definition standalone (t : TweetData) : Thread := mkThread t [] [].

  (** The [tweetMap] of the source is built but never read. *)
Definition groupTweetsIntoThreads (tweets : list TweetData) : list Thread :=
    let roots := List.filter is_root tweets in
    let threads1 := List.map standalone roots in
    let used1 := List.map id roots in
    let '(threads2, used2) := pass2 threads1 used1 tweets in
    threads2 ++ List.map standalone
                  (List.filter (fun t => negb (mem (id t) used2)) tweets).

  (** All posts shown by a list of threads: parent, replies, quotes. *)
Definition thread_posts (th : Thread) : list TweetData :=
    parent th :: t_replies th ++ t_quotes th.

Definition all_posts (ths : list Thread) : list TweetData :=
    List.concat (List.map thread_posts ths).

Definition post_count (ths : list Thread) : nat :=
    List.fold_right (fun th n => (1 + length (t_replies th) + length (t_quotes th) + n)%nat)
      0%nat ths.

  (** The replies of a thread are replies to its parent, and its quotes
      quote it. *)
Definition nested_ok (th : Thread) : Prop :=
    Forall (fun r => tweet_type r = Some Reply /\ is_reply_to r = Some (id (parent th)))
      (t_replies th) /\
    Forall (fun q => tweet_type q = Some Quote /\ quotes_tweet q = Some (id (parent th)))
      (t_quotes th).

End Threads.

(** ** [SentimentChart] ([components/SentimentChart.tsx]), the [chartData] memo *)
Module Chart.
  Import Data.

Record Point := mkPoint { pt_hour : nat; pt_sentiment : Q }.

  (** [byHour]: a [Record<number, { total; count }>]. *)
Definition add_tweet (m : gmap nat (Q * nat)) (t : TweetData) : gmap nat (Q * nat) :=
    let e := match m !! hour t with Some e => e | None => (0%Q, 0%nat) end in
    <[hour t := (fst e + sentiment t, S (snd e))%Q]> m.

Definition byHour (tweets : list TweetData) : gmap nat (Q * nat) :=
    fold_left add_tweet tweets ∅.

  (** [Math.max(...Object.keys(byHour).map(Number))] *)
Definition maxHour (m : gmap nat (Q * nat)) : nat :=
    List.list_max (List.map fst (map_to_list m)).

  (** [entry ? entry.total / entry.count : 0] *)
Definition point_at (m : gmap nat (Q * nat)) (h : nat) : Point :=
    mkPoint h (match m !! h with
               | Some (total, count) => (total / inject_Z (Z.of_nat count))%Q
               | None => 0%Q
               end).

Definition chartData (tweets : list TweetData) : list Point :=
    match tweets with
    | [] => []
    | _ =>
        let m := byHour tweets in
        List.map (point_at m) (List.seq 0 (S (maxHour m)))
    end.

  (** The spec's terms: the largest hour present, the posts of an hour,
      and the arithmetic mean of their sentiments. *)
Definition max_hour (tweets : list TweetData) : nat := List.list_max (List.map hour tweets).

Definition posts_at (tweets : list TweetData) (h : nat) : list TweetData :=
    List.filter (fun t => Nat.eqb (hour t) h) tweets.

Definition mean_sentiment (ts : list TweetData) : Q :=
    (fold_left (fun s t => s + sentiment t) ts 0 / inject_Z (Z.of_nat (length ts)))%Q.

  (** The plot geometry of the component: [width = 280], [height = 100],
      padding 10 / 10 / 20 / 30 (top, right, bottom, left). *)
Definition width : Q := 280.
Definition height : Q := 100.
Definition pad_top : Q := 10.
Definition pad_right : Q := 10.
Definition pad_bottom : Q := 20.
Definition pad_left : Q := 30.
Definition chartWidth : Q := width - pad_left - pad_right.
Definition chartHeight : Q := height - pad_top - pad_bottom.

  (** [xScale], with [len = chartData.length]. *)
Definition xScale (len : nat) (hr : nat) : Q :=
    pad_left + (inject_Z (Z.of_nat hr) / (inject_Z (Z.of_nat len) - 1)) * chartWidth.

Definition yScale (sentiment : Q) : Q :=
    pad_top + ((1 - sentiment) / 2) * chartHeight.

End Chart.

(** ** [PersonaImpact] ([components/PersonaImpact.tsx]), the [stats] memo *)
Module Persona.
  Import Data.

Record Group := mkGroup { g_tweets : list TweetData; g_engagement : nat }.

Record PersonaStats := mkStats {
    s_type : string;
    tweetCount : nat;
    avgSentiment : Q;
    totalEngagement : nat;
    engagementPct : Q
  }.

Definition engagement (t : TweetData) : nat := (likes t + retweets t + replies t)%nat.

  (** [byType[type]] created on first use, then pushed to and summed.
      Entries keep their insertion order, which is the order of
      [Object.entries] for archetype names that are not array indices. *)
Fixpoint upd (ty : string) (t : TweetData) (e : nat) (l : list (string * Group))
      : list (string * Group) :=
    match l with
    | [] => [(ty, mkGroup [t] e)]
    | (k, g) :: l' =>
        if String.eqb k ty then (k, mkGroup (g_tweets g ++ [t]) (g_engagement g + e)%nat) :: l'
        else (k, g) :: upd ty t e l'
    end.

Definition group_step (acc : list (string * Group) * nat) (t : TweetData)
      : list (string * Group) * nat :=
    let e := engagement t in
    (upd (author_type t) t e (fst acc), (snd acc + e)%nat).

Definition sum_sentiment (ts : list TweetData) : Q :=
    fold_left (fun s t => s + sentiment t)%Q ts 0%Q.

Definition mk_entry (total : nat) (kv : string * Group) : PersonaStats :=
    let '(ty, g) := kv in
    mkStats ty (length (g_tweets g))
      (sum_sentiment (g_tweets g) / inject_Z (Z.of_nat (length (g_tweets g))))%Q
      (g_engagement g)
      (if (0 <? total)%nat
       then (inject_Z (Z.of_nat (g_engagement g)) / inject_Z (Z.of_nat total) * 100)%Q
       else 0%Q).

  (** [.sort((a, b) => b.engagementPct - a.engagementPct)]: the comparator
      is consistent, so the stable sort of the engine gives the result of
      this stable insertion sort (descending share, ties in input order). *)
Fixpoint insert_desc (x : PersonaStats) (l : list PersonaStats) : list PersonaStats :=
    match l with
    | [] => [x]
    | y :: l' =>
        if Qle_bool (engagementPct y) (engagementPct x) then x :: y :: l'
        else y :: insert_desc x l'
    end.

Definition sort_desc (l : list PersonaStats) : list PersonaStats :=
    List.fold_right insert_desc [] l.

Definition grouped (tweets : list TweetData) : list (string * Group) * nat :=
    fold_left group_step tweets ([], 0%nat).

Definition stats (tweets : list TweetData) : list PersonaStats :=
    match tweets with
    | [] => []
    | _ =>
        let '(byType, total) := grouped tweets in
        sort_desc (List.map (mk_entry total) byType)
    end.

  (** The grand total, as the spec defines it. *)
Definition grand_total (tweets : list TweetData) : nat :=
    List.fold_right (fun t n => (engagement t + n)%nat) 0%nat tweets.

Definition pct_sum (l : list PersonaStats) : Q :=
    List.fold_right (fun s q => engagementPct s + q)%Q 0%Q l.

  (** An archetype's total engagement, as the spec defines it. *)
Definition type_engagement (tweets : list TweetData) (ty : string) : nat :=
    grand_total (List.filter (fun t => String.eqb (author_type t) ty) tweets).

  (** The rows of the bar chart: [stats.slice(0, 5)]. *)
Definition bars (st : list PersonaStats) : list PersonaStats := List.firstn 5 st.

Definition count_sum (l : list PersonaStats) : nat :=
    List.fold_right (fun s n => (tweetCount s + n)%nat) 0%nat l.

Definition group_count (l : list (string * Group)) : nat :=
    List.fold_right (fun kv n => (length (g_tweets (snd kv)) + n)%nat) 0%nat l.

End Persona.

(** ** Sample inputs *)
Module Samples.
  Import Data.

Definition post1 : TweetData :=
    mkTweet "1" "Degen Dan" "degendan" "degen" "wagmi" 0 10 2 1 (1 # 2)
            (Some Original) None None.

Definition post (i : string) (h : nat) (k : TweetType) (par quo : option string)
      : TweetData :=
    mkTweet i "n" "h" "degen" "c" h 1 0 0 0 (Some k) par quo.

  (** The spec's scenario: an original, a reply to it, a quote of it, and a
      reply to the absent post 999. *)
Definition scenario : list TweetData :=
    [post "1" 0 Original None None; post "2" 1 Reply (Some "1"%string) None;
     post "3" 2 Quote None (Some "1"%string); post "4" 3 Reply (Some "999"%string) None].

  (** Newline-terminated lines as bytes. *)
Definition stream_of (ls : list string) : list Byte.byte :=
    String.list_byte_of_string (Sse.unlines ls).

  (** A [JSON.parse] for two payloads: [E] is an [error] frame, [T] a tweet. *)
Definition sim_parse (s : string) : option SingleRun.Frame :=
    if String.eqb s "E" then Some (SingleRun.FError "boom")
    else if String.eqb s "T" then Some (SingleRun.FTweet post1)
    else None.

  (** The same for harness events: [E] is [error], [R] is [run_completed]. *)
Definition harness_parse (s : string) : option Harness.HEvent :=
    if String.eqb s "E" then Some (Harness.EError "boom")
    else if String.eqb s "R" then Some Harness.ERunCompleted
    else None.

End Samples.

(** * Properties *)

Module WalletFacts.
  Import Wallet.

  (** The spec's scenario: 1000, stake 500, complete. *)
Example scenario_500 :
    let h := completeSimulation (snd (stake 500 initial)) in
    balance (wallet h) = 975 /\ totalBurned (wallet h) = 25 /\
    simulationsRun (wallet h) = 1 /\ pendingStake h = None.
  Proof. vm_compute. repeat split. Qed.

  (** C3 (as stated): stake(a) then completeSimulation() leaves the balance
      at b - a + floor(a * 0.95). False at b = 1000, a = 1: the burn
      floor(1 * 0.05) is 0, so the whole unit comes back. *)
Lemma stake_complete_claim_fails :
    balance (wallet (completeSimulation (snd (stake 1 initial))))
      <> 1000 - 1 + (1 * 95) / 100.
  Proof. vm_compute. discriminate. Qed.

  (** C3 (amended): for a balance b and an amount 0 <= a <= b, stake(a) then
      completeSimulation() leaves balance b - a + (a - floor(a / 20)), i.e. the
      stake minus a burn of floor(a * 0.05); simulationsRun grows by 1,
      totalStaked by a, totalBurned by floor(a / 20), and pendingStake is
      cleared. *)
Theorem stake_then_complete (h : Hook) (a : Z) :
    0 <= a -> a <= balance (wallet h) ->
    let h' := completeSimulation (snd (stake a h)) in
    balance (wallet h') = balance (wallet h) - a + (a - a / 20) /\
    simulationsRun (wallet h') = simulationsRun (wallet h) + 1 /\
    totalStaked (wallet h') = totalStaked (wallet h) + a /\
    totalBurned (wallet h') = totalBurned (wallet h) + a / 20 /\
    pendingStake h' = None.
  Proof.
    intros Ha Hb. unfold stake.
    destruct (Z.gtb_spec a (balance (wallet h))) as [Hgt | _]; [lia |].
    cbn. unfold burn. repeat split.
  Qed.

Lemma stake_then_complete_witness :
    (0 <= 500 /\ 500 <= balance (wallet initial)) /\
    balance (wallet (completeSimulation (snd (stake 500 initial)))) =
      balance (wallet initial) - 500 + (500 - 500 / 20).
  Proof.
    split; [vm_compute; split; discriminate |].
    exact (proj1 (stake_then_complete initial 500 ltac:(lia) ltac:(vm_compute; discriminate))).
  Defined.

  (** The ledger invariant: balance and pending stake are non-negative. *)
Definition ledger_ok (h : Hook) : Prop :=
    0 <= balance (wallet h) /\
    match pendingStake h with Some p => 0 <= p | None => True end.

Lemma step_ok (o : op) (h : Hook) :
    ledger_ok h -> (forall a, o = OStake a -> 0 <= a) -> ledger_ok (step o h).
  Proof.
    unfold ledger_ok. intros [Hb Hp] Ho.
    destruct o as [a | | | |]; cbn.
    - specialize (Ho a eq_refl). unfold stake.
      destruct (Z.gtb_spec a (balance (wallet h))); cbn; [split; assumption | lia].
    - unfold completeSimulation. destruct (pendingStake h) as [p |] eqn:E; cbn.
      + unfold burn. split; [| exact I].
        pose proof (Z.div_le_upper_bound p 20 p ltac:(lia) ltac:(lia)). lia.
      + rewrite E. split; [exact Hb | exact I].
    - unfold refundStake. destruct (pendingStake h) as [p |] eqn:E; cbn.
      + split; [lia | exact I].
      + rewrite E. split; [exact Hb | exact I].
    - unfold claimFaucet. destruct (Z.leb_spec (balance (wallet h)) 0); cbn.
      + split; [unfold INITIAL_BALANCE; lia | exact Hp].
      + split; assumption.
    - unfold INITIAL_BALANCE; split; [lia | exact I].
  Qed.

Lemma trace_ok (os : list op) (h : Hook) :
    ledger_ok h -> (forall a, In (OStake a) os -> 0 <= a) ->
    Forall ledger_ok (trace h os).
  Proof.
    revert h. induction os as [| o os IH]; intros h Hh Hos; cbn; constructor.
    - apply step_ok; [exact Hh |]. intros a ->. apply Hos. now left.
    - apply IH; [| intros a Ha; apply Hos; now right].
      apply step_ok; [exact Hh |]. intros a ->. apply Hos. now left.
  Qed.

  (** C8: for every sequence of stake (with non-negative amounts),
      completeSimulation, refundStake, claimFaucet and resetWallet calls from
      the initial state, the balance is non-negative after every call. *)
Theorem balance_nonneg (os : list op) :
    (forall a, In (OStake a) os -> 0 <= a) ->
    Forall (fun h => 0 <= balance (wallet h)) (trace initial os).
  Proof.
    intros Hos.
    assert (Hi : ledger_ok initial) by (split; [vm_compute; discriminate | exact I]).
    pose proof (trace_ok os initial Hi Hos) as H.
    induction H as [| h l [Hb _] _ IH]; constructor; assumption.
  Qed.

Lemma balance_nonneg_witness :
    Forall (fun h => 0 <= balance (wallet h))
      (trace initial [OStake 1000; OComplete; OFaucet; OStake 3; ORefund; OReset]).
  Proof.
    apply balance_nonneg.
    intros a Ha. cbn in Ha.
    repeat destruct Ha as [Ha | Ha];
      try (injection Ha; intros; lia); try discriminate; contradiction.
  Defined.

  (** C9: with a stake p already pending and 0 <= a <= balance, stake(a)
      succeeds, replaces the pending stake by a and takes a from the balance;
      p is gone: balance + pendingStake drops by p, and totalStaked and
      totalBurned do not change. *)
Theorem stake_over_pending (h : Hook) (p a : Z) :
    pendingStake h = Some p -> 0 <= a -> a <= balance (wallet h) ->
    let '(ok, h') := stake a h in
    ok = true /\ pendingStake h' = Some a /\
    balance (wallet h') = balance (wallet h) - a /\
    balance (wallet h') + a = (balance (wallet h) + p) - p /\
    totalStaked (wallet h') = totalStaked (wallet h) /\
    totalBurned (wallet h') = totalBurned (wallet h).
  Proof.
    intros Hp Ha Hb. unfold stake.
    destruct (Z.gtb_spec a (balance (wallet h))) as [Hgt | _]; [lia |].
    cbn. repeat split; lia.
  Qed.

Lemma stake_over_pending_witness :
    let h := snd (stake 500 initial) in
    pendingStake h = Some 500 /\ 0 <= 200 /\ 200 <= balance (wallet h) /\
    (let '(ok, h') := stake 200 h in
     ok = true /\ pendingStake h' = Some 200 /\
     balance (wallet h') = balance (wallet h) - 200 /\
     balance (wallet h') + 200 = (balance (wallet h) + 500) - 500 /\
     totalStaked (wallet h') = totalStaked (wallet h) /\
     totalBurned (wallet h') = totalBurned (wallet h)).
  Proof.
    cbv zeta. split; [reflexivity |]. split; [lia |]. split; [vm_compute; discriminate |].
    exact (stake_over_pending (snd (stake 500 initial)) 500 200 eq_refl ltac:(lia)
             ltac:(vm_compute; discriminate)).
  Defined.

End WalletFacts.

Module SseFacts.
  Import Sse.

  (* stdpp makes [String.append] opaque to [simpl]: its two equations *)
Lemma append_nil_l (b : string) : String.append EmptyString b = b.
  Proof. reflexivity. Qed.

Lemma append_cons (c : Ascii.ascii) (a b : string) :
    String.append (String c a) b = String c (String.append a b).
  Proof. reflexivity. Qed.

Lemma append_assoc (a b c : string) :
    String.append (String.append a b) c = String.append a (String.append b c).
  Proof.
    induction a as [| x a IH]; [reflexivity |].
    rewrite !append_cons, IH. reflexivity.
  Qed.

Lemma append_empty_r (a : string) : String.append a EmptyString = a.
  Proof.
    induction a as [| x a IH]; [reflexivity |].
    rewrite append_cons, IH. reflexivity.
  Qed.

Lemma split_no_nl (b : string) : no_nl b = true -> split_nl b = [b].
  Proof.
    induction b as [| c b IH]; cbn; [reflexivity |].
    destruct (Ascii.eqb c nl); cbn; [discriminate |].
    intros Hb. now rewrite (IH Hb).
  Qed.

Lemma split_line (l r : string) :
    no_nl l = true -> split_nl (String.append l (String nl r)) = l :: split_nl r.
  Proof.
    induction l as [| c l IH].
    - intros _. rewrite append_nil_l. cbn. rewrite Ascii.eqb_refl. reflexivity.
    - rewrite append_cons. cbn. destruct (Ascii.eqb c nl); cbn; [discriminate |].
      intros Hl. now rewrite (IH Hl).
  Qed.

Lemma split_unlines (ls : list string) (b : string) :
    Forall (fun l => no_nl l = true) ls -> no_nl b = true ->
    split_nl (String.append (unlines ls) b) = ls ++ [b].
  Proof.
    intros Hls Hb. induction Hls as [| l ls Hl _ IH]; cbn.
    - now apply split_no_nl.
    - cbn [unlines]. rewrite append_assoc, append_cons.
      rewrite split_line by exact Hl. now rewrite IH.
  Qed.

Lemma lines_of_unlines (ls : list string) (b : string) :
    Forall (fun l => no_nl l = true) ls -> no_nl b = true ->
    lines_of (String.append (unlines ls) b) = ls.
  Proof.
    intros Hls Hb. unfold lines_of. rewrite split_unlines by assumption.
    apply removelast_last.
  Qed.

  (** Every text is a run of complete lines and a last, open line. *)
Lemma decompose (s : string) :
    exists ls b, Forall (fun l => no_nl l = true) ls /\ no_nl b = true /\
                 s = String.append (unlines ls) b.
  Proof.
    induction s as [| c s IH].
    - exists [], EmptyString. repeat split; constructor.
    - destruct IH as (ls & b & Hls & Hb & ->).
      destruct (Ascii.eqb c nl) eqn:Ec.
      + apply Ascii.eqb_eq in Ec as ->.
        exists (EmptyString :: ls), b. repeat split; [constructor; [reflexivity | exact Hls] | exact Hb].
      + destruct ls as [| l ls].
        * exists [], (String c b). cbn. rewrite Ec. repeat split; [constructor | exact Hb].
        * exists (String c l :: ls), b.
          inversion Hls as [| ? ? Hl Hls']; subst.
          repeat split; [constructor; [cbn; rewrite Ec, Hl; reflexivity | exact Hls'] | exact Hb].
  Qed.

Lemma unlines_app (l1 l2 : list string) :
    unlines (l1 ++ l2) = String.append (unlines l1) (unlines l2).
  Proof.
    induction l1 as [| l l1 IH]; cbn [app unlines]; [reflexivity |].
    rewrite append_assoc, append_cons. now rewrite IH.
  Qed.

Lemma feed_chunk_spec (buf text : string) :
    exists ls b, Forall (fun l => no_nl l = true) ls /\ no_nl b = true /\
      String.append buf text = String.append (unlines ls) b /\
      feed_chunk buf text = (ls, b).
  Proof.
    destruct (decompose (String.append buf text)) as (ls & b & Hls & Hb & E).
    exists ls, b. repeat split; try assumption.
    unfold feed_chunk. rewrite E, split_unlines by assumption.
    rewrite removelast_last, last_last. reflexivity.
  Qed.

  (** The loop hands over exactly the complete lines of the buffer followed
      by everything the decoder produces, however the bytes are chunked. *)
Lemma read_loop_lines {D : Type} (decode : D -> list Byte.byte -> D * string)
      (chunks : list (list Byte.byte)) :
    forall ds buf, no_nl buf = true ->
      read_loop decode ds buf chunks =
      lines_of (String.append buf (decoded_text decode ds chunks)).
  Proof.
    induction chunks as [| c cs IH]; intros ds buf Hbuf; cbn [read_loop decoded_text].
    - rewrite append_empty_r. unfold lines_of. rewrite split_no_nl by exact Hbuf.
      reflexivity.
    - destruct (decode ds c) as [ds' text].
      destruct (feed_chunk_spec buf text) as (ls & b & Hls & Hb & E & ->).
      rewrite (IH ds' b Hb).
      destruct (decompose (String.append b (decoded_text decode ds' cs)))
        as (ls2 & b2 & Hls2 & Hb2 & E2).
      rewrite E2, lines_of_unlines by assumption.
      rewrite <- append_assoc, E, append_assoc, E2, <- append_assoc, <- unlines_app.
      rewrite lines_of_unlines; [reflexivity | apply Forall_app; split; assumption | exact Hb2].
  Qed.

Lemma string_of_list_byte_app (c1 c2 : list Byte.byte) :
    String.string_of_list_byte (c1 ++ c2) =
    String.append (String.string_of_list_byte c1) (String.string_of_list_byte c2).
  Proof.
    induction c1 as [| b c1 IH]; [reflexivity |].
    change (String.string_of_list_byte ((b :: c1) ++ c2))
      with (String (Ascii.ascii_of_byte b) (String.string_of_list_byte (c1 ++ c2))).
    change (String.string_of_list_byte (b :: c1))
      with (String (Ascii.ascii_of_byte b) (String.string_of_list_byte c1)).
    rewrite append_cons, IH. reflexivity.
  Qed.

Lemma ascii_decode_invariant : chunking_invariant ascii_decode.
  Proof. intros [] c1 c2. cbn. symmetry. apply string_of_list_byte_app. Qed.

  (** C6: with a chunking-invariant decoder, a byte stream split at any
      offset k into two successive reads yields the same decoded frames, in
      the same order, as the stream read at once. *)
Theorem split_read_same_frames {D F : Type} (decode : D -> list Byte.byte -> D * string)
      (parse : string -> option F) (ds : D) (bytes : list Byte.byte) (k : nat) :
    chunking_invariant decode ->
    frames parse (read_loop decode ds EmptyString [List.firstn k bytes; List.skipn k bytes]) =
    frames parse (read_loop decode ds EmptyString [bytes]).
  Proof.
    intros Hdec.
    rewrite !read_loop_lines by reflexivity.
    rewrite !append_nil_l. f_equal. f_equal.
    cbn [decoded_text].
    specialize (Hdec ds (List.firstn k bytes) (List.skipn k bytes)).
    rewrite List.firstn_skipn in Hdec.
    destruct (decode ds (List.firstn k bytes)) as [ds1 t1] eqn:E1. cbn in Hdec.
    destruct (decode ds1 (List.skipn k bytes)) as [ds2 t2].
    destruct (decode ds bytes) as [ds3 t3]. cbn in Hdec.
    rewrite !append_empty_r. exact Hdec.
  Qed.

Lemma split_read_same_frames_witness :
    chunking_invariant ascii_decode /\
    frames (fun s => Some s)
      (read_loop ascii_decode tt EmptyString
         [List.firstn 9 (String.list_byte_of_string
            (String.append "data: a" (String nl (String.append "data: b" (String nl EmptyString)))));
          List.skipn 9 (String.list_byte_of_string
            (String.append "data: a" (String nl (String.append "data: b" (String nl EmptyString)))))]) =
    frames (fun s => Some s)
      (read_loop ascii_decode tt EmptyString
         [String.list_byte_of_string
            (String.append "data: a" (String nl (String.append "data: b" (String nl EmptyString))))]).
  Proof.
    split; [exact ascii_decode_invariant |].
    apply split_read_same_frames. exact ascii_decode_invariant.
  Defined.

  (** C10: when the decoded stream ends in a line with no terminating
      newline, the loop hands over exactly the newline-terminated lines before
      it, in order, and never that last line (it stays in the buffer when the
      reader reports [done]). *)
Theorem unterminated_last_line_dropped {D : Type}
      (decode : D -> list Byte.byte -> D * string) (ds : D)
      (chunks : list (list Byte.byte)) (ls : list string) (last : string) :
    decoded_text decode ds chunks = String.append (unlines ls) last ->
    Forall (fun l => no_nl l = true) ls -> no_nl last = true -> last <> EmptyString ->
    read_loop decode ds EmptyString chunks = ls.
  Proof.
    intros Htext Hls Hlast _.
    rewrite read_loop_lines by reflexivity.
    rewrite append_nil_l, Htext. apply lines_of_unlines; assumption.
  Qed.

Lemma unterminated_last_line_dropped_witness :
    read_loop ascii_decode tt EmptyString
      [String.list_byte_of_string (String.append "data: a" (String nl "dat"));
       String.list_byte_of_string "a: b"] = ["data: a"].
  Proof.
    apply (unterminated_last_line_dropped ascii_decode tt _ ["data: a"] "data: b");
      [vm_compute; reflexivity | repeat constructor | reflexivity | discriminate].
  Defined.

End SseFacts.

Module SingleRunFacts.
  Import Data SingleRun.

Lemma handle_line_tweets (parse : string -> option Frame) (st : SimState) (l : string) :
    error (handle_line parse st l) = error st /\
    refundCalls (handle_line parse st l) = refundCalls st /\
    tweets (handle_line parse st l) = tweets st ++ tweets_in parse [l].
  Proof.
    unfold handle_line, tweets_in, Sse.frames, Sse.payloads. cbn [List.filter].
    destruct (Sse.is_data_line l);
      [destruct (parse (Sse.slice6 l)) as [f |] eqn:Ep; [destruct f |] |];
      cbn; rewrite ?Ep; cbn; rewrite ?app_nil_r; repeat split.
  Qed.

Lemma tweets_in_cons (parse : string -> option Frame) (l : string) (ls : list string) :
    tweets_in parse (l :: ls) = tweets_in parse [l] ++ tweets_in parse ls.
  Proof.
    unfold tweets_in, Sse.frames, Sse.payloads. cbn [List.filter].
    destruct (Sse.is_data_line l); [| reflexivity].
    simpl. destruct (parse (Sse.slice6 l)) as [f |]; [| reflexivity].
    simpl. destruct (tweet_of f); reflexivity.
  Qed.

Lemma fold_handle_lines (parse : string -> option Frame) (lines : list string) :
    forall st,
      error (fold_left (handle_line parse) lines st) = error st /\
      refundCalls (fold_left (handle_line parse) lines st) = refundCalls st /\
      tweets (fold_left (handle_line parse) lines st) = tweets st ++ tweets_in parse lines.
  Proof.
    induction lines as [| l ls IH]; intros st; cbn [fold_left].
    - rewrite app_nil_r. auto.
    - destruct (handle_line_tweets parse st l) as (E1 & R1 & T1).
      destruct (IH (handle_line parse st l)) as (E2 & R2 & T2).
      rewrite E2, R2, T2, E1, R1, T1, <- app_assoc, (tweets_in_cons parse l ls).
      repeat split.
  Qed.

  (** C1 (code_bug): on a stream the server accepted, [runSimulation] never
      surfaces an error and never calls [refundStake], whatever frames the
      stream holds: the [throw] of an [error] frame is caught by the per-line
      [catch] meant for parse errors, and the [tweet] frames after it are
      still collected. *)
Theorem error_frame_not_fatal {D : Type} (parse : string -> option Frame)
      (decode : D -> list Byte.byte -> D * string) (ds : D)
      (chunks : list (list Byte.byte)) :
    let r := runSimulation parse decode ds (ROk chunks) in
    error r = None /\ refundCalls r = 0%nat /\ isRunning r = false /\
    tweets r = tweets_in parse (Sse.read_loop decode ds EmptyString chunks).
  Proof.
    cbn zeta. unfold runSimulation.
    destruct (fold_handle_lines parse (Sse.read_loop decode ds EmptyString chunks) start_state)
      as (E & R & T).
    cbn [tweets error refundCalls isRunning].
    rewrite E, R, T. repeat split.
  Qed.

  (** The failing input: an [error] frame followed by a [tweet] frame. *)
Example error_then_tweet :
    let r := runSimulation Samples.sim_parse Sse.ascii_decode tt
               (ROk [Samples.stream_of ["data: E"; "data: T"]]) in
    error r = None /\ refundCalls r = 0%nat /\ tweets r = [Samples.post1].
  Proof. vm_compute. repeat split. Qed.

End SingleRunFacts.

Module HarnessFacts.
  Import Data Harness.

Definition set_error (st : HState) (m : string) : HState :=
    mkH (h_running st) (experiments st) (currentExperiment st) (Some m)
        (runProgress st) (h_completeCalls st) (h_refundCalls st) (finalRefresh st).

  (** C2 (as stated): an [error] frame does not end the run: with an [error]
      frame followed by [run_completed], the run still calls
      [completeSimulation] and the success refresh. *)
Lemma error_then_run_completed :
    let r := startHarness Samples.harness_parse Sse.ascii_decode tt None
               (StreamOk [Samples.stream_of ["data: E"; "data: R"]]) in
    h_error r = Some "boom"%string /\ h_completeCalls r = 1%nat /\ finalRefresh r = true.
  Proof. vm_compute. repeat split. Qed.

Lemma event_keeps_running (cur : option Experiment) (st : HState) (ev : HEvent) :
    ends_run ev = false ->
    h_running (handleHarnessEvent cur st ev) = h_running st /\
    h_completeCalls (handleHarnessEvent cur st ev) = h_completeCalls st /\
    h_refundCalls (handleHarnessEvent cur st ev) = h_refundCalls st /\
    finalRefresh (handleHarnessEvent cur st ev) = finalRefresh st.
  Proof. destruct ev; cbn; try destruct cur; try discriminate; repeat split. Qed.

Lemma event_counts (cur : option Experiment) (st : HState) (ev : HEvent) :
    h_completeCalls (handleHarnessEvent cur st ev) = h_completeCalls st /\
    h_refundCalls (handleHarnessEvent cur st ev) = h_refundCalls st.
  Proof. destruct ev; cbn; try destruct cur; split; reflexivity. Qed.

Lemma lines_end (parse : string -> option HEvent) (cur : option Experiment)
      (ls : list string) :
    forall st, snd (harness_lines parse cur st ls) = has_end_line parse ls.
  Proof.
    induction ls as [| l ls IH]; intros st; [reflexivity |].
    cbn [harness_lines has_end_line existsb]. fold (has_end_line parse ls).
    unfold is_end_line at 1.
    destruct (Sse.is_data_line l); cbn [andb orb]; [| apply IH].
    destruct (parse (Sse.slice6 l)) as [ev |]; [| apply IH].
    destruct (ends_run ev); [reflexivity | apply IH].
  Qed.

Lemma no_end_lines_keep (parse : string -> option HEvent) (cur : option Experiment)
      (ls : list string) :
    forall st, has_end_line parse ls = false ->
      let r := harness_lines parse cur st ls in
      snd r = false /\ h_running (fst r) = h_running st /\
      h_completeCalls (fst r) = h_completeCalls st /\
      h_refundCalls (fst r) = h_refundCalls st /\
      finalRefresh (fst r) = finalRefresh st.
  Proof.
    induction ls as [| l ls IH]; intros st Hn; cbv zeta; [repeat split |].
    cbn [has_end_line existsb] in Hn. apply orb_false_iff in Hn as [Hl Hn].
    fold (has_end_line parse ls) in Hn. unfold is_end_line in Hl.
    cbn [harness_lines].
    destruct (Sse.is_data_line l); cbn [andb] in Hl; [| now apply IH].
    destruct (parse (Sse.slice6 l)) as [ev |]; [| now apply IH].
    rewrite Hl. destruct (event_keeps_running cur st ev Hl) as (E1 & E2 & E3 & E4).
    destruct (IH (handleHarnessEvent cur st ev) Hn) as (F0 & F1 & F2 & F3 & F4).
    rewrite F1, F2, F3, F4, E1, E2, E3, E4. split; [exact F0 | repeat split].
  Qed.

Lemma end_line_ends (parse : string -> option HEvent) (cur : option Experiment)
      (pre : list string) (l : string) (post : list string) :
    forall st, has_end_line parse pre = false -> is_end_line parse l = true ->
      let r := harness_lines parse cur st (pre ++ l :: post) in
      snd r = true /\ h_running (fst r) = false /\
      h_completeCalls (fst r) = S (h_completeCalls st) /\
      h_refundCalls (fst r) = h_refundCalls st /\ finalRefresh (fst r) = true.
  Proof.
    induction pre as [| l0 pre IH]; intros st Hn He; cbv zeta.
    - cbn [app harness_lines]. unfold is_end_line in He.
      destruct (Sse.is_data_line l); [| discriminate].
      destruct (parse (Sse.slice6 l)) as [ev |]; [| discriminate].
      cbn [andb] in He. rewrite He.
      destruct (event_counts cur st ev) as [C R].
      cbn [fst snd h_running h_completeCalls h_refundCalls finalRefresh].
      rewrite C, R. repeat split.
    - cbn [has_end_line existsb] in Hn. apply orb_false_iff in Hn as [Hl Hn].
      fold (has_end_line parse pre) in Hn. unfold is_end_line in Hl.
      cbn [app harness_lines].
      destruct (Sse.is_data_line l0); cbn [andb] in Hl; [| now apply IH].
      destruct (parse (Sse.slice6 l0)) as [ev |]; [| now apply IH].
      rewrite Hl. destruct (event_keeps_running cur st ev Hl) as (_ & E2 & E3 & _).
      destruct (IH (handleHarnessEvent cur st ev) Hn He) as (F0 & F1 & F2 & F3 & F4).
      rewrite F2, F3, E2, E3 in *. repeat split; assumption.
  Qed.

  (** C2 (amended): in the Streaming state an [error] frame only records its
      message as the surfaced error ([setError]) and the loop goes on with
      the next line. Over lines with no [done] or [run_completed] frame the
      loop does not return, isRunning is unchanged, and neither
      completeSimulation, refundStake nor the success refresh runs; the
      first [done] or [run_completed] frame sets isRunning to false, calls
      completeSimulation once and runs the success refresh. Apart from that
      frame, isRunning only becomes false in the [finally] block, once the
      stream has been read to its end. *)
Theorem error_frame_sets_error_only (parse : string -> option HEvent)
      (cur : option Experiment) (st : HState) (l : string) (ls : list string)
      (m : string) :
    Sse.is_data_line l = true -> parse (Sse.slice6 l) = Some (EError m) ->
    harness_lines parse cur st (l :: ls) = harness_lines parse cur (set_error st m) ls /\
    (forall st' pre, has_end_line parse pre = false ->
       let r := harness_lines parse cur st' pre in
       snd r = false /\ h_running (fst r) = h_running st' /\
       h_completeCalls (fst r) = h_completeCalls st' /\
       h_refundCalls (fst r) = h_refundCalls st' /\
       finalRefresh (fst r) = finalRefresh st') /\
    (forall st' pre l' post,
       has_end_line parse pre = false -> is_end_line parse l' = true ->
       let r := harness_lines parse cur st' (pre ++ l' :: post) in
       snd r = true /\ h_running (fst r) = false /\
       h_completeCalls (fst r) = S (h_completeCalls st') /\ finalRefresh (fst r) = true) /\
    (forall (D : Type) (decode : D -> list Byte.byte -> D * string) (ds : D) chunks,
       h_running (startHarness parse decode ds cur (StreamOk chunks)) = false).
  Proof.
    intros Hl Hp. split; [| split; [| split]].
    - cbn [harness_lines]. rewrite Hl, Hp. reflexivity.
    - intros st' pre Hn. exact (no_end_lines_keep parse cur pre st' Hn).
    - intros st' pre l' post Hn He.
      destruct (end_line_ends parse cur pre l' post st' Hn He) as (A & B & C & _ & E).
      repeat split; assumption.
    - intros D decode ds chunks. reflexivity.
  Qed.

Lemma error_frame_sets_error_only_witness :
    harness_lines Samples.harness_parse None start_state ["data: E"; "data: R"] =
    harness_lines Samples.harness_parse None (set_error start_state "boom") ["data: R"].
  Proof.
    exact (proj1 (error_frame_sets_error_only Samples.harness_parse None start_state
                    "data: E" ["data: R"] "boom" eq_refl eq_refl)).
  Defined.

End HarnessFacts.

Module ThreadsFacts.
  Import Data Threads.

Example scenario_threads :
    List.map (fun th => (id (parent th), List.map id (t_replies th), List.map id (t_quotes th)))
      (groupTweetsIntoThreads Samples.scenario) =
    [("1"%string, ["2"%string], ["3"%string]); ("4"%string, [], [])].
  Proof. vm_compute. reflexivity. Qed.

Lemma mem_In (x : string) (U : list string) : mem x U = true <-> In x U.
  Proof.
    unfold mem. rewrite existsb_exists. split.
    - intros (y & Hy & E). apply String.eqb_eq in E. now subst.
    - intros Hx. exists x. split; [exact Hx | apply String.eqb_refl].
  Qed.

Lemma mem_cons (x y : string) (U : list string) :
    mem x (y :: U) = String.eqb x y || mem x U.
  Proof. reflexivity. Qed.

Lemma mem_app (x : string) (U V : list string) : mem x (U ++ V) = mem x U || mem x V.
  Proof. unfold mem. apply existsb_app. Qed.

  (** A thread is found for [tgt] among the given parents. *)
Definition found (P : list TweetData) (tgt : string) : bool :=
    existsb (fun p => String.eqb (id p) tgt) P.

  (** The second pass attaches [t] to one of the roots [P]. *)
Definition attached (P : list TweetData) (t : TweetData) : bool :=
    negb (is_root t) &&
    match target t with Some (_, tgt) => found P tgt | None => false end.

Lemma all_posts_cons (th : Thread) (ths : list Thread) :
    all_posts (th :: ths) = thread_posts th ++ all_posts ths.
  Proof. reflexivity. Qed.

Lemma attach_spec (q : bool) (tgt : string) (t : TweetData) (T : list Thread) :
    match attach q tgt t T with
    | Some T' => Permutation (all_posts T') (t :: all_posts T) /\
                 List.map parent T' = List.map parent T /\
                 found (List.map parent T) tgt = true
    | None => found (List.map parent T) tgt = false
    end.
  Proof.
    induction T as [| th T IH]; cbn [attach]; [reflexivity |].
    unfold found. cbn [List.map existsb]. fold (found (List.map parent T) tgt).
    destruct (String.eqb (id (parent th)) tgt) eqn:E.
    - split; [| split; [destruct q; reflexivity | reflexivity]].
      rewrite !all_posts_cons. unfold thread_posts.
      destruct q; cbn [parent t_replies t_quotes]; solve_Permutation.
    - destruct (attach q tgt t T) as [T' |]; cbn [option_map orb]; [| exact IH].
      destruct IH as (Hp & Hm & Hf). split; [| split; [cbn; now rewrite Hm | exact Hf]].
      rewrite !all_posts_cons. rewrite Hp. solve_Permutation.
  Qed.

Lemma pass2_spec (ts : list TweetData) :
    forall T U,
      List.NoDup (List.map id ts) ->
      (forall t, In t ts -> is_root t = true -> mem (id t) U = true) ->
      (forall t, In t ts -> is_root t = false -> mem (id t) U = false) ->
      let '(T', U') := pass2 T U ts in
      Permutation (all_posts T')
        (List.filter (attached (List.map parent T)) ts ++ all_posts T) /\
      List.map parent T' = List.map parent T /\
      (forall x, mem x U' =
                 mem x U || mem x (List.map id (List.filter (attached (List.map parent T)) ts))).
  Proof.
    induction ts as [| t ts IH]; intros T U Hnd Hroot Hother.
    - cbn. split; [reflexivity | split; [reflexivity | intros x; now rewrite orb_false_r]].
    - cbn [List.map] in Hnd. apply NoDup_cons_iff in Hnd as [Hnin Hnd].
      assert (Hr : forall t', In t' ts -> is_root t' = true -> mem (id t') U = true)
        by (intros t' Ht'; apply Hroot; now right).
      assert (Ho : forall t', In t' ts -> is_root t' = false -> mem (id t') U = false)
        by (intros t' Ht'; apply Hother; now right).
      cbn [pass2 List.filter].
      destruct (is_root t) eqn:Er.
      + rewrite (Hroot t (or_introl eq_refl) Er).
        assert (Ha : attached (List.map parent T) t = false)
          by (unfold attached; now rewrite Er).
        rewrite Ha. exact (IH T U Hnd Hr Ho).
      + rewrite (Hother t (or_introl eq_refl) Er).
        assert (Ha : attached (List.map parent T) t =
                     match target t with
                     | Some (_, tgt) => found (List.map parent T) tgt
                     | None => false end)
          by (unfold attached; now rewrite Er).
        rewrite Ha.
        destruct (target t) as [[q tgt] |] eqn:Et.
        * pose proof (attach_spec q tgt t T) as HA.
          destruct (attach q tgt t T) as [T'' |].
          -- destruct HA as (Hp & Hm & Hf). rewrite Hf.
             assert (Hnd' : forall t', In t' ts -> String.eqb (id t') (id t) = false).
             { intros t' Ht'. apply String.eqb_neq. intros Heq. apply Hnin.
               rewrite <- Heq. now apply in_map. }
             specialize (IH T'' (id t :: U) Hnd).
             rewrite Hm in IH.
             destruct (pass2 T'' (id t :: U) ts) as [T' U'].
             destruct IH as (IHp & IHm & IHu).
             ++ intros t' Ht' Hr'. rewrite mem_cons, (Hr t' Ht' Hr'). apply orb_true_r.
             ++ intros t' Ht' Hr'. rewrite mem_cons, (Hnd' t' Ht'). cbn. now apply Ho.
             ++ split; [| split; [exact IHm |]].
                ** rewrite IHp, Hp. solve_Permutation.
                ** intros x. rewrite IHu. cbn [List.map]. rewrite !mem_cons.
                   destruct (String.eqb x (id t)), (mem x U); reflexivity.
          -- rewrite HA. exact (IH T U Hnd Hr Ho).
        * exact (IH T U Hnd Hr Ho).
  Qed.

Lemma mem_filter_ids (f : TweetData -> bool) (l : list TweetData) (t : TweetData) :
    List.NoDup (List.map id l) -> In t l -> mem (id t) (List.map id (List.filter f l)) = f t.
  Proof.
    induction l as [| t0 l IH]; [intros _ [] |].
    cbn [List.map]. intros Hnd Hin. apply NoDup_cons_iff in Hnd as [Hnin Hnd].
    assert (Hout : forall x, ~ In x (List.map id l) ->
                   mem x (List.map id (List.filter f l)) = false).
    { intros x Hx. destruct (mem x (List.map id (List.filter f l))) eqn:E; [| reflexivity].
      exfalso. apply Hx. apply mem_In in E. apply in_map_iff in E as (y & <- & Hy).
      apply in_map. apply filter_In in Hy. tauto. }
    destruct Hin as [<- | Hin].
    - cbn [List.filter]. destruct (f t0); cbn [List.map].
      + rewrite mem_cons, String.eqb_refl. reflexivity.
      + now apply Hout.
    - assert (Hne : String.eqb (id t) (id t0) = false).
      { apply String.eqb_neq. intros Heq. apply Hnin. rewrite <- Heq. now apply in_map. }
      cbn [List.filter]. destruct (f t0); cbn [List.map]; [rewrite mem_cons, Hne |];
        apply IH; assumption.
  Qed.

Lemma filter_three (a r : TweetData -> bool) (l : list TweetData) :
    (forall t, a t = true -> r t = false) ->
    Permutation l
      (List.filter a l ++ List.filter r l ++ List.filter (fun t => negb (r t || a t)) l).
  Proof.
    intros Har. induction l as [| t l IH]; [reflexivity |]. cbn [List.filter].
    destruct (a t) eqn:Ea.
    - rewrite (Har t Ea). cbn. now apply perm_skip.
    - destruct (r t); cbn [negb orb].
      + rewrite IH at 1. solve_Permutation.
      + rewrite IH at 1. solve_Permutation.
  Qed.

Lemma all_posts_standalone (l : list TweetData) :
    all_posts (List.map standalone l) = l.
  Proof.
    induction l as [| t l IH]; [reflexivity |].
    cbn [List.map]. rewrite all_posts_cons, IH. reflexivity.
  Qed.

Lemma all_posts_app (A B : list Thread) : all_posts (A ++ B) = all_posts A ++ all_posts B.
  Proof. unfold all_posts. now rewrite map_app, concat_app. Qed.

Lemma post_count_length (ths : list Thread) : post_count ths = length (all_posts ths).
  Proof.
    induction ths as [| th ths IH]; [reflexivity |].
    cbn [post_count List.fold_right]. fold (post_count ths).
    rewrite all_posts_cons, length_app, IH. unfold thread_posts.
    cbn [length]. rewrite length_app. lia.
  Qed.

  (** Every post is a root, attached, or an orphan. *)
Lemma group_posts (tweets : list TweetData) :
    List.NoDup (List.map id tweets) ->
    let roots := List.filter is_root tweets in
    Permutation (all_posts (groupTweetsIntoThreads tweets)) tweets /\
    (forall t, In t tweets -> attached roots t = false -> is_root t = false ->
               In (standalone t) (groupTweetsIntoThreads tweets)).
  Proof.
    intros Hnd roots. unfold groupTweetsIntoThreads. fold roots.
    assert (Hm1 : List.map parent (List.map standalone roots) = roots).
    { rewrite map_map. apply map_id. }
    pose proof (pass2_spec tweets (List.map standalone roots) (List.map id roots) Hnd) as H2.
    rewrite Hm1 in H2.
    destruct (pass2 (List.map standalone roots) (List.map id roots) tweets) as [T2 U2].
    destruct H2 as (Hp & _ & Hu).
    - intros t Ht Hr. unfold roots. rewrite mem_filter_ids by assumption. exact Hr.
    - intros t Ht Hr. unfold roots. rewrite mem_filter_ids by assumption. exact Hr.
    - assert (Horph : List.filter (fun t => negb (mem (id t) U2)) tweets =
                      List.filter (fun t => negb (is_root t || attached roots t)) tweets).
      { apply filter_ext_in. intros t Ht. rewrite Hu. unfold roots.
        rewrite !mem_filter_ids by assumption. reflexivity. }
      rewrite Horph. split.
      + rewrite all_posts_app, all_posts_standalone, Hp, all_posts_standalone.
        etransitivity; [| symmetry; apply (filter_three (attached roots) is_root tweets)].
        * unfold roots. rewrite <- app_assoc. reflexivity.
        * intros t. unfold attached. destruct (is_root t); [discriminate | reflexivity].
      + intros t Ht Ha Hr. apply in_or_app. right. apply in_map.
        apply filter_In. split; [exact Ht |]. rewrite Hr, Ha. reflexivity.
  Qed.

  (** C4: for posts with pairwise-distinct ids, the posts shown by the
      threads (parents, replies and quotes) are a permutation of the input:
      each post appears exactly once, so the total post count equals the
      input size; and a non-root post whose parent or quote target is not in
      the collection is a standalone thread of its own. *)
Theorem threads_keep_every_post (tweets : list TweetData) :
    List.NoDup (List.map id tweets) ->
    Permutation (all_posts (groupTweetsIntoThreads tweets)) tweets /\
    post_count (groupTweetsIntoThreads tweets) = length tweets /\
    (forall t, In t tweets -> is_root t = false ->
       (forall q tgt, target t = Some (q, tgt) -> forall t', In t' tweets -> id t' <> tgt) ->
       In (standalone t) (groupTweetsIntoThreads tweets)).
  Proof.
    intros Hnd. destruct (group_posts tweets Hnd) as [Hp Hs].
    split; [exact Hp | split].
    - rewrite post_count_length. now apply Permutation_length.
    - intros t Ht Hr Habs. apply Hs; [exact Ht | | exact Hr].
      unfold attached. rewrite Hr. cbn [negb andb].
      destruct (target t) as [[q tgt] |] eqn:Et; [| reflexivity].
      unfold found. apply not_true_is_false. intros Hf.
      apply existsb_exists in Hf as (p & Hp' & Heq). apply String.eqb_eq in Heq.
      apply filter_In in Hp' as [Hp' _].
      exact (Habs q tgt eq_refl p Hp' Heq).
  Qed.

Lemma threads_keep_every_post_witness :
    List.NoDup (List.map id Samples.scenario) /\
    post_count (groupTweetsIntoThreads Samples.scenario) = length Samples.scenario.
  Proof.
    assert (Hnd : List.NoDup (List.map id Samples.scenario)) by (vm_compute; repeat constructor; cbn; intuition discriminate).
    split; [exact Hnd | exact (proj1 (proj2 (threads_keep_every_post Samples.scenario Hnd)))].
  Defined.

End ThreadsFacts.

Module ChartFacts.
  Import Data Chart.

Definition acc_entry (e : Q * nat) (ts : list TweetData) : Q * nat :=
    fold_left (fun e t => (fst e + sentiment t, S (snd e))%Q) ts e.

Lemma acc_entry_spec (a : Q) (n : nat) (ts : list TweetData) :
    acc_entry (a, n) ts = (fold_left (fun s t => s + sentiment t)%Q ts a, (n + length ts)%nat).
  Proof.
    revert a n. induction ts as [| t ts IH]; intros a n; cbn.
    - now rewrite Nat.add_0_r.
    - unfold acc_entry in IH. rewrite IH. f_equal. lia.
  Qed.

Lemma byHour_lookup (ts : list TweetData) :
    forall (m : gmap nat (Q * nat)) (h : nat),
      fold_left add_tweet ts m !! h =
      match posts_at ts h with
      | [] => m !! h
      | ts_h => Some (acc_entry (match m !! h with Some e => e | None => (0%Q, 0%nat) end) ts_h)
      end.
  Proof.
    induction ts as [| t ts IH]; intros m h; [reflexivity |].
    cbn [fold_left]. rewrite IH. unfold posts_at. cbn [List.filter].
    fold (posts_at ts h).
    destruct (Nat.eqb_spec (hour t) h) as [<- | Hne].
    - unfold add_tweet. rewrite lookup_insert_eq.
      destruct (posts_at ts (hour t)); reflexivity.
    - unfold add_tweet. rewrite lookup_insert_ne by exact Hne. reflexivity.
  Qed.

Lemma byHour_at (tweets : list TweetData) (h : nat) :
    byHour tweets !! h =
    match posts_at tweets h with
    | [] => None
    | ts_h => Some (fold_left (fun s t => s + sentiment t)%Q ts_h 0%Q, length ts_h)
    end.
  Proof.
    unfold byHour. rewrite byHour_lookup, lookup_empty.
    destruct (posts_at tweets h) as [| t l] eqn:E; [reflexivity |].
    rewrite acc_entry_spec. reflexivity.
  Qed.

Lemma posts_at_nil (tweets : list TweetData) (h : nat) :
    posts_at tweets h = [] <-> ~ In h (List.map hour tweets).
  Proof.
    unfold posts_at. split.
    - intros E Hin. apply in_map_iff in Hin as (t & Ht & Hin).
      assert (In t (List.filter (fun t => Nat.eqb (hour t) h) tweets))
        by (apply filter_In; split; [exact Hin | now apply Nat.eqb_eq]).
      rewrite E in H. contradiction.
    - intros Hn. destruct (List.filter (fun t => Nat.eqb (hour t) h) tweets) as [| t l] eqn:E;
        [reflexivity | exfalso].
      assert (Ht : In t (List.filter (fun t => Nat.eqb (hour t) h) tweets)) by (rewrite E; now left).
      apply filter_In in Ht as [Hin Ht]. apply Nat.eqb_eq in Ht. apply Hn.
      rewrite <- Ht. now apply in_map.
  Qed.

Lemma keys_byHour (tweets : list TweetData) (k : nat) :
    In k (List.map fst (map_to_list (byHour tweets))) <-> In k (List.map hour tweets).
  Proof.
    rewrite in_map_iff. split.
    - intros ([k' v] & <- & Hin). cbn [fst].
      apply list_elem_of_In, elem_of_map_to_list in Hin.
      rewrite byHour_at in Hin.
      destruct (posts_at tweets k') eqn:E; [discriminate |].
      destruct (in_dec Nat.eq_dec k' (List.map hour tweets)) as [? | Hn]; [assumption |].
      apply posts_at_nil in Hn. congruence.
    - intros Hin. destruct (byHour tweets !! k) as [v |] eqn:E.
      + exists (k, v). split; [reflexivity |].
        apply list_elem_of_In, elem_of_map_to_list. exact E.
      + rewrite byHour_at in E. destruct (posts_at tweets k) eqn:E'; [| discriminate].
        apply posts_at_nil in E'. contradiction.
  Qed.

Lemma list_max_bound (l : list nat) (k : nat) : In k l -> (k <= List.list_max l)%nat.
  Proof.
    pose proof (proj1 (list_max_le l (List.list_max l)) (le_n _)) as HF.
    rewrite List.Forall_forall in HF. exact (HF k).
  Qed.

Lemma list_max_same (l1 l2 : list nat) :
    (forall k, In k l1 <-> In k l2) -> List.list_max l1 = List.list_max l2.
  Proof.
    intros Heq.
    assert (H12 : (List.list_max l1 <= List.list_max l2)%nat).
    { apply list_max_le, List.Forall_forall. intros k Hk.
      apply list_max_bound, Heq, Hk. }
    assert (H21 : (List.list_max l2 <= List.list_max l1)%nat).
    { apply list_max_le, List.Forall_forall. intros k Hk.
      apply list_max_bound, Heq, Hk. }
    lia.
  Qed.

Lemma maxHour_byHour (tweets : list TweetData) :
    maxHour (byHour tweets) = max_hour tweets.
  Proof. apply list_max_same, keys_byHour. Qed.

  (** C5: with no posts the series is empty; otherwise it has maxHour + 1
      points, the point at index h is for hour h, and its sentiment is the
      mean sentiment of the posts of hour h, or exactly 0 when there are
      none. *)
Theorem chart_covers_hours (tweets : list TweetData) :
    (tweets = [] -> chartData tweets = []) /\
    (tweets <> [] ->
     length (chartData tweets) = S (max_hour tweets) /\
     forall h, (h <= max_hour tweets)%nat ->
       nth_error (chartData tweets) h =
       Some (mkPoint h (match posts_at tweets h with
                        | [] => 0%Q
                        | ts_h => mean_sentiment ts_h
                        end))).
  Proof.
    split; [intros ->; reflexivity |].
    intros Hne.
    assert (Hc : chartData tweets =
                 List.map (point_at (byHour tweets)) (List.seq 0 (S (max_hour tweets)))).
    { unfold chartData. destruct tweets; [contradiction |]. now rewrite maxHour_byHour. }
    rewrite Hc. split.
    - now rewrite length_map, length_seq.
    - intros h Hh. rewrite nth_error_map, nth_error_seq.
      destruct (Nat.ltb_spec h (S (max_hour tweets))) as [_ | Hlt]; [| lia].
      cbn [option_map Nat.add]. f_equal. unfold point_at. rewrite byHour_at.
      destruct (posts_at tweets h); reflexivity.
  Qed.

Lemma chart_covers_hours_witness :
    Samples.scenario <> [] /\ (2 <= max_hour Samples.scenario)%nat /\
    nth_error (chartData Samples.scenario) 2 =
    Some (mkPoint 2 (match posts_at Samples.scenario 2 with
                     | [] => 0%Q | ts_h => mean_sentiment ts_h end)).
  Proof.
    assert (Hne : Samples.scenario <> []) by discriminate.
    split; [exact Hne |]. split; [vm_compute; lia |].
    apply (proj2 (proj2 (chart_covers_hours Samples.scenario) Hne)). vm_compute. lia.
  Defined.

End ChartFacts.

Module PersonaFacts.
  Import Data Persona.

Definition keys (l : list (string * Group)) : list string := List.map fst l.

Definition eng_of (l : list (string * Group)) (k : string) : nat :=
    List.fold_right (fun kv n => if String.eqb (fst kv) k then (g_engagement (snd kv) + n)%nat else n)
      0%nat l.

Definition sum_eng (l : list (string * Group)) : nat :=
    List.fold_right (fun kv n => (g_engagement (snd kv) + n)%nat) 0%nat l.

Lemma upd_keys_In (ty : string) (t : TweetData) (e : nat) (l : list (string * Group)) (k : string) :
    In k (keys (upd ty t e l)) <-> In k (keys l) \/ k = ty.
  Proof.
    induction l as [| [k0 g0] l IH]; cbn [upd keys List.map fst].
    - cbn. intuition.
    - destruct (String.eqb_spec k0 ty) as [-> | Hne]; cbn [List.map fst In].
      + intuition.
      + fold (keys (upd ty t e l)) (keys l). rewrite IH. intuition.
  Qed.

Lemma upd_nodup (ty : string) (t : TweetData) (e : nat) (l : list (string * Group)) :
    List.NoDup (keys l) -> List.NoDup (keys (upd ty t e l)).
  Proof.
    induction l as [| [k0 g0] l IH]; cbn [upd keys List.map fst]; intros Hnd.
    - repeat constructor. intros [].
    - apply NoDup_cons_iff in Hnd as [Hnin Hnd].
      destruct (String.eqb_spec k0 ty) as [-> | Hne]; cbn [List.map fst].
      + constructor; assumption.
      + fold (keys (upd ty t e l)) (keys l). constructor; [| now apply IH].
        rewrite upd_keys_In. intros [? | ?]; [contradiction | congruence].
  Qed.

Lemma upd_eng_of (ty : string) (t : TweetData) (e : nat) (l : list (string * Group)) (k : string) :
    eng_of (upd ty t e l) k = (eng_of l k + if String.eqb ty k then e else 0)%nat.
  Proof.
    induction l as [| [k0 g0] l IH]; cbn [upd eng_of List.fold_right fst snd].
    - destruct (String.eqb ty k); cbn; lia.
    - destruct (String.eqb_spec k0 ty) as [-> | Hne]; cbn [eng_of List.fold_right fst snd g_engagement].
      + fold (eng_of l k). destruct (String.eqb ty k); lia.
      + fold (eng_of l k) (eng_of (upd ty t e l) k). rewrite IH.
        destruct (String.eqb k0 k); lia.
  Qed.

Lemma upd_sum_eng (ty : string) (t : TweetData) (e : nat) (l : list (string * Group)) :
    sum_eng (upd ty t e l) = (sum_eng l + e)%nat.
  Proof.
    induction l as [| [k0 g0] l IH]; cbn [upd sum_eng List.fold_right fst snd].
    - cbn. lia.
    - destruct (String.eqb k0 ty); cbn [sum_eng List.fold_right fst snd g_engagement].
      + fold (sum_eng l). lia.
      + fold (sum_eng l) (sum_eng (upd ty t e l)). rewrite IH. lia.
  Qed.

Lemma grouped_spec (ts : list TweetData) :
    forall l n,
      List.NoDup (keys l) ->
      let '(l', n') := fold_left group_step ts (l, n) in
      n' = (n + grand_total ts)%nat /\
      sum_eng l' = (sum_eng l + grand_total ts)%nat /\
      (forall k, eng_of l' k = (eng_of l k + type_engagement ts k)%nat) /\
      List.NoDup (keys l') /\
      (forall k, In k (keys l') <-> In k (keys l) \/ In k (List.map author_type ts)).
  Proof.
    induction ts as [| t ts IH]; intros l n Hnd.
    - cbn. repeat split; try lia; try assumption; intuition.
    - cbn [fold_left]. unfold group_step at 2. cbn [fst snd].
      specialize (IH (upd (author_type t) t (engagement t) l) (n + engagement t)%nat
                     (upd_nodup _ _ _ _ Hnd)).
      destruct (fold_left group_step ts _) as [l' n'].
      destruct IH as (Hn & Hs & He & Hd & Hk).
      unfold type_engagement in *. cbn [grand_total List.fold_right List.filter].
      fold (grand_total ts).
      repeat split.
      + lia.
      + rewrite Hs, upd_sum_eng. lia.
      + intros k. rewrite He, upd_eng_of.
        destruct (String.eqb (author_type t) k); cbn [List.fold_right]; fold (grand_total
          (List.filter (fun t0 => String.eqb (author_type t0) k) ts)); lia.
      + exact Hd.
      + intros Hin. apply Hk in Hin as [Hin | Hin]; [apply upd_keys_In in Hin as [? | ->] |];
          cbn [List.map In]; tauto.
      + intros H. apply Hk. rewrite upd_keys_In. cbn [List.map In] in H. intuition.
  Qed.

Lemma entry_eng (l : list (string * Group)) (k : string) (g : Group) :
    List.NoDup (keys l) -> In (k, g) l -> g_engagement g = eng_of l k.
  Proof.
    induction l as [| [k0 g0] l IH]; [intros _ [] |].
    cbn [keys List.map fst]. intros Hnd Hin. apply NoDup_cons_iff in Hnd as [Hnin Hnd].
    cbn [eng_of List.fold_right fst snd]. fold (eng_of l k).
    destruct Hin as [Heq | Hin].
    - injection Heq as <- <-. rewrite String.eqb_refl.
      assert (Hz : eng_of l k0 = 0%nat).
      { clear IH Hnd. induction l as [| [k1 g1] l IHl]; [reflexivity |].
        cbn [eng_of List.fold_right fst snd]. fold (eng_of l k0).
        cbn [keys List.map fst In] in Hnin.
        destruct (String.eqb_spec k1 k0) as [-> | _]; [tauto |].
        apply IHl. tauto. }
      lia.
    - assert (Hk : k <> k0).
      { intros ->. apply Hnin. apply (in_map fst) in Hin. exact Hin. }
      apply String.eqb_neq in Hk. rewrite (String.eqb_sym k0 k), Hk.
      now apply IH.
  Qed.

  (** The order the sort establishes: descending [engagementPct]. *)
Definition desc (a b : PersonaStats) : Prop := (engagementPct b <= engagementPct a)%Q.

Lemma insert_perm (x : PersonaStats) (l : list PersonaStats) :
    Permutation (insert_desc x l) (x :: l).
  Proof.
    induction l as [| y l IH]; cbn [insert_desc]; [reflexivity |].
    destruct (Qle_bool (engagementPct y) (engagementPct x)); [reflexivity |].
    rewrite IH. apply perm_swap.
  Qed.

Lemma sort_perm (l : list PersonaStats) : Permutation (sort_desc l) l.
  Proof.
    induction l as [| x l IH]; [reflexivity |].
    cbn [sort_desc List.fold_right]. fold (sort_desc l).
    rewrite insert_perm, IH. reflexivity.
  Qed.

Lemma insert_hd (y x : PersonaStats) (l : list PersonaStats) :
    HdRel desc y l -> desc y x -> HdRel desc y (insert_desc x l).
  Proof.
    intros Hh Hyx. destruct l as [| z l]; cbn [insert_desc].
    - constructor. exact Hyx.
    - destruct (Qle_bool (engagementPct z) (engagementPct x)); constructor; [exact Hyx |].
      inversion Hh; assumption.
  Qed.

Lemma insert_sorted (x : PersonaStats) (l : list PersonaStats) :
    Sorted desc l -> Sorted desc (insert_desc x l).
  Proof.
    induction 1 as [| y l Hs IH Hh]; cbn [insert_desc].
    - repeat constructor.
    - destruct (Qle_bool (engagementPct y) (engagementPct x)) eqn:E.
      + apply Qle_bool_iff in E. constructor; [constructor; assumption | constructor; exact E].
      + constructor; [exact IH |]. apply insert_hd; [exact Hh |].
        unfold desc. apply Qlt_le_weak, Qnot_le_lt. intros Hle.
        apply Qle_bool_iff in Hle. congruence.
  Qed.

Lemma sort_sorted (l : list PersonaStats) : Sorted desc (sort_desc l).
  Proof.
    induction l as [| x l IH]; [constructor |].
    cbn [sort_desc List.fold_right]. fold (sort_desc l). now apply insert_sorted.
  Qed.

Lemma pct_sum_perm (l1 l2 : list PersonaStats) :
    Permutation l1 l2 -> (pct_sum l1 == pct_sum l2)%Q.
  Proof.
    induction 1 as [| x l1 l2 _ IH | x y l | l1 l2 l3 _ IH1 _ IH2]; cbn [pct_sum List.fold_right].
    - reflexivity.
    - fold (pct_sum l1) (pct_sum l2). rewrite IH. reflexivity.
    - ring.
    - rewrite IH1. exact IH2.
  Qed.

Lemma inject_nat_add (a b : nat) :
    (inject_Z (Z.of_nat (a + b)) == inject_Z (Z.of_nat a) + inject_Z (Z.of_nat b))%Q.
  Proof. rewrite Nat2Z.inj_add, inject_Z_plus. reflexivity. Qed.

Lemma pct_sum_map (T : nat) (l : list (string * Group)) :
    (0 < T)%nat ->
    (pct_sum (List.map (mk_entry T) l) ==
     inject_Z (Z.of_nat (sum_eng l)) / inject_Z (Z.of_nat T) * 100)%Q.
  Proof.
    intros HT. assert (HT' : ~ (inject_Z (Z.of_nat T) == 0)%Q).
    { intros H. unfold Qeq in H. cbn in H. lia. }
    induction l as [| [k g] l IH]; cbn [List.map pct_sum List.fold_right sum_eng].
    - cbn. field. exact HT'.
    - fold (pct_sum (List.map (mk_entry T) l)) (sum_eng l). rewrite IH.
      cbn [mk_entry engagementPct snd].
      destruct (Nat.ltb_spec 0 T) as [_ | ?]; [| lia].
      rewrite inject_nat_add. field. exact HT'.
  Qed.

Lemma types_of_entries (T : nat) (l : list (string * Group)) :
    List.map s_type (List.map (mk_entry T) l) = keys l.
  Proof. induction l as [| [k g] l IH]; cbn; [reflexivity | now rewrite IH]. Qed.

  (** C7 (as stated): the shares sum to 1.0 when there is engagement. False
      for a single post with 13 engagements: its share is 100. *)
Lemma persona_share_not_fraction :
    (0 < grand_total [Samples.post1])%nat /\
    ~ (pct_sum (stats [Samples.post1]) == 1)%Q.
  Proof.
    split; [vm_compute; lia |].
    intros H. apply Qeq_bool_iff in H. vm_compute in H. discriminate.
  Qed.

  (** C7 (amended): each distinct archetype gets one entry whose
      totalEngagement is the archetype's summed likes + retweets + replies
      and whose engagementPct is that total divided by the grand total, times
      100 (0 when the grand total is 0); the percentages sum to 100 when the
      grand total is positive and are all 0 when it is 0; entries are ordered
      by descending engagementPct. *)
Theorem persona_percentages (tweets : list TweetData) :
    let st := stats tweets in
    let T := grand_total tweets in
    (forall e, In e st ->
       totalEngagement e = type_engagement tweets (s_type e) /\
       engagementPct e =
         (if (0 <? T)%nat
          then inject_Z (Z.of_nat (type_engagement tweets (s_type e))) /
               inject_Z (Z.of_nat T) * 100
          else 0)%Q) /\
    List.NoDup (List.map s_type st) /\
    (forall ty, In ty (List.map s_type st) <-> In ty (List.map author_type tweets)) /\
    ((0 < T)%nat -> (pct_sum st == 100)%Q) /\
    (T = 0%nat -> Forall (fun e => engagementPct e = 0%Q) st) /\
    Sorted desc st.
  Proof.
    cbv zeta.
    pose proof (grouped_spec tweets [] 0%nat (List.NoDup_nil _)) as Hg.
    destruct (fold_left group_step tweets ([], 0%nat)) as [l n] eqn:Eg.
    destruct Hg as (Hn & Hs & He & Hd & Hk). cbn in Hn, Hs, He.
    destruct tweets as [| t0 ts0] eqn:Etw.
    - cbn. split; [intros e [] |]. split; [constructor |]. split; [tauto |].
      split; [intros HT; lia |]. split; intros; constructor.
    - rewrite <- Etw in *.
      assert (Hst : stats tweets = sort_desc (List.map (mk_entry n) l)).
      { unfold stats, grouped. rewrite Eg, Etw. reflexivity. }
      rewrite Hst. rewrite <- Hn.
      pose proof (sort_perm (List.map (mk_entry n) l)) as Hp.
      split; [| split; [| split; [| split; [| split]]]].
      + intros e Hin. apply (Permutation_in _ Hp), in_map_iff in Hin as ([k g] & <- & Hkg).
        cbn [mk_entry s_type totalEngagement engagementPct].
        rewrite (entry_eng l k g Hd Hkg), He. split; reflexivity.
      + apply (Permutation_NoDup (Permutation_sym (Permutation_map s_type Hp))).
        rewrite types_of_entries. exact Hd.
      + intros ty. pose proof (Permutation_map s_type Hp) as Hpm.
        rewrite types_of_entries in Hpm.
        split.
        * intros Hin. apply (Permutation_in _ Hpm), Hk in Hin. cbn in Hin. tauto.
        * intros Hin. apply (Permutation_in _ (Permutation_sym Hpm)), Hk. right. exact Hin.
      + intros HT. rewrite (pct_sum_perm _ _ Hp), (pct_sum_map n l HT), Hs, <- Hn.
        field. intros H. unfold Qeq in H. cbn in H. lia.
      + intros HT. apply List.Forall_forall. intros e Hin.
        apply (Permutation_in _ Hp), in_map_iff in Hin as ([k g] & <- & _).
        cbn [mk_entry engagementPct]. rewrite HT. reflexivity.
      + apply sort_sorted.
  Qed.

Lemma persona_percentages_witness :
    (0 < grand_total [Samples.post1])%nat /\ (pct_sum (stats [Samples.post1]) == 100)%Q.
  Proof.
    assert (HT : (0 < grand_total [Samples.post1])%nat) by (vm_compute; lia).
    split; [exact HT |].
    exact (proj1 (proj2 (proj2 (proj2 (persona_percentages [Samples.post1])))) HT).
  Defined.

End PersonaFacts.

(** * Further properties of the wallet and its callers *)
Module WalletLedgerFacts.
  Import Wallet.

  (** Refunding right after a successful stake gives back the wallet as it
      was before the stake, with no stake pending. *)
Theorem refund_after_stake (h h' : Hook) (a : Z) :
    stake a h = (true, h') -> refundStake h' = mkHook (wallet h) None.
  Proof.
    unfold stake. destruct (a >? balance (wallet h)); [discriminate |].
    intros E. injection E as <-. cbn.
    destruct (wallet h) as [b ts tb sr]. cbn. f_equal. f_equal. lia.
  Qed.

Lemma refund_after_stake_witness :
    stake 300 initial = (true, snd (stake 300 initial)) /\
    refundStake (snd (stake 300 initial)) = mkHook (wallet initial) None.
  Proof.
    split; [reflexivity |].
    apply (refund_after_stake initial (snd (stake 300 initial)) 300). reflexivity.
  Defined.

  (** A pending stake is settled at most once: after completeSimulation or
      refundStake, a second completeSimulation or refundStake changes
      nothing. *)
Theorem settle_once (h : Hook) :
    completeSimulation (completeSimulation h) = completeSimulation h /\
    refundStake (completeSimulation h) = completeSimulation h /\
    completeSimulation (refundStake h) = refundStake h /\
    refundStake (refundStake h) = refundStake h.
  Proof.
    unfold completeSimulation, refundStake.
    destruct (pendingStake h) eqn:E; cbn; rewrite ?E; repeat split.
  Qed.

Lemma held_step (o : op) (h : Hook) :
    0 <= pending_amount h -> (forall a, o = OStake a -> 0 <= a) ->
    o <> OFaucet -> o <> OReset ->
    held (step o h) <= held h /\ 0 <= pending_amount (step o h).
  Proof.
    unfold held, pending_amount. intros Hp Ho Hf Hr.
    destruct o as [a | | | |]; cbn [step]; [| | | contradiction | contradiction].
    - specialize (Ho a eq_refl). unfold stake.
      destruct (a >? balance (wallet h)); cbn; lia.
    - unfold completeSimulation. destruct (pendingStake h) as [p |] eqn:E; cbn;
        rewrite ?E; unfold burn; lia.
    - unfold refundStake. destruct (pendingStake h) as [p |] eqn:E; cbn;
        rewrite ?E; lia.
  Qed.

  (** Tokens are never created except by claimFaucet and resetWallet: over
      any sequence of stake (with non-negative amounts), completeSimulation
      and refundStake calls, balance + pending stake + total burned never
      exceeds its starting value. *)
Theorem held_never_grows (h : Hook) (os : list op) :
    0 <= pending_amount h ->
    (forall a, In (OStake a) os -> 0 <= a) -> ~ In OFaucet os -> ~ In OReset os ->
    Forall (fun h' => held h' <= held h) (trace h os).
  Proof.
    revert h. induction os as [| o os IH]; intros h Hp Hs Hf Hr; cbn [trace]; constructor.
    - apply held_step; [exact Hp | intros a ->; apply Hs; now left
                       | intros ->; apply Hf; now left | intros ->; apply Hr; now left].
    - destruct (held_step o h Hp) as [Hle Hp'];
        [intros a ->; apply Hs; now left | intros ->; apply Hf; now left
        | intros ->; apply Hr; now left |].
      specialize (IH (step o h) Hp' (fun a Ha => Hs a (or_intror Ha))
                     (fun H => Hf (or_intror H)) (fun H => Hr (or_intror H))).
      eapply Forall_impl; [exact IH | cbn; intros; lia].
  Qed.

Lemma held_never_grows_witness :
    Forall (fun h' => held h' <= held initial)
      (trace initial [OStake 400; OStake 100; OComplete; ORefund]).
  Proof.
    apply held_never_grows.
    - vm_compute. discriminate.
    - intros a Ha. cbn in Ha.
      repeat destruct Ha as [Ha | Ha]; try (injection Ha; intros; lia); try discriminate; contradiction.
    - cbn. intros H. repeat (destruct H as [H | H]; [discriminate |]). exact H.
    - cbn. intros H. repeat (destruct H as [H | H]; [discriminate |]). exact H.
  Defined.

Lemma burn_step (o : op) (h : Hook) :
    20 * totalBurned (wallet h) <= totalStaked (wallet h) ->
    20 * totalBurned (wallet (step o h)) <= totalStaked (wallet (step o h)).
  Proof.
    intros H. destruct o as [a | | | |]; cbn [step].
    - unfold stake. destruct (a >? balance (wallet h)); cbn; lia.
    - unfold completeSimulation. destruct (pendingStake h) as [p |]; cbn; [| lia].
      unfold burn. pose proof (Z.mul_div_le p 20 ltac:(lia)). lia.
    - unfold refundStake. destruct (pendingStake h); cbn; lia.
    - unfold claimFaucet. destruct (balance (wallet h) <=? 0); cbn; lia.
    - cbn. lia.
  Qed.

  (** From the initial wallet, after any sequence of calls, the total burned
      is at most 5% of the total staked: 20 * totalBurned <= totalStaked. *)
Theorem burned_within_rate (os : list op) :
    Forall (fun h => 20 * totalBurned (wallet h) <= totalStaked (wallet h))
      (trace initial os).
  Proof.
    assert (H0 : 20 * totalBurned (wallet initial) <= totalStaked (wallet initial))
      by (cbn; lia).
    revert H0. generalize initial as h.
    induction os as [| o os IH]; intros h H0; cbn [trace]; constructor.
    - now apply burn_step.
    - apply IH. now apply burn_step.
  Qed.

End WalletLedgerFacts.

Module LaunchFacts.
  Import Wallet Launch.

  (** In the lab, the balance check of handleLaunchClick passes exactly when
      the stake of confirmAndStartHarness succeeds; the harness then starts
      with max_experiments * 50 moved from the balance to the pending stake. *)
Theorem launch_check_matches_stake (n : Z) (h : Hook) :
    (handleLaunchClick n h = inr tt <-> exists h', confirmAndStartHarness n h = inr h') /\
    (forall h', confirmAndStartHarness n h = inr h' ->
       balance (wallet h') = balance (wallet h) - n * 50 /\
       pendingStake h' = Some (n * 50) /\
       totalStaked (wallet h') = totalStaked (wallet h)).
  Proof.
    unfold handleLaunchClick, confirmAndStartHarness, canAfford, stake, requiredStake,
      HARNESS_STAKE_PER_EXPERIMENT.
    destruct (Z.leb_spec (n * 50) (balance (wallet h))) as [Hle | Hgt].
    - replace (n * 50 >? balance (wallet h)) with false by (symmetry; rewrite Z.gtb_ltb; apply Z.ltb_ge; lia).
      cbn. split.
      + split; [intros _; eexists; reflexivity | intros _; reflexivity].
      + intros h' E. injection E as <-. cbn. repeat split.
    - replace (n * 50 >? balance (wallet h)) with true by (symmetry; rewrite Z.gtb_ltb; apply Z.ltb_lt; lia).
      cbn. split.
      + split; [discriminate | intros [h' E]; discriminate].
      + intros h' E; discriminate.
  Qed.

End LaunchFacts.

Module SseLineFacts.
  Import Sse SseFacts.

Lemma substring_0_long (s : string) (m : nat) :
    (String.length s <= m)%nat -> String.substring 0 m s = s.
  Proof.
    revert m. induction s as [| c s IH]; intros m Hm.
    - destruct m; reflexivity.
    - destruct m as [| m]; cbn in Hm; [lia |]. cbn. f_equal. apply IH. lia.
  Qed.

Lemma data_line_of (p : string) :
    is_data_line (String.append data_prefix p) = true /\
    slice6 (String.append data_prefix p) = p.
  Proof.
    unfold data_prefix. rewrite !append_cons, append_nil_l.
    split; [destruct p; reflexivity |].
    unfold slice6. cbn [String.substring String.length].
    apply substring_0_long. lia.
  Qed.

  (** Writing payloads as ["data: " ^ payload] lines and reading them back
      with [line.startsWith('data: ')] and [line.slice(6)] gives the payloads,
      unchanged and in order. *)
Theorem data_lines_round_trip (ps : list string) :
    payloads (List.map (String.append data_prefix) ps) = ps.
  Proof.
    induction ps as [| p ps IH]; [reflexivity |].
    unfold payloads in *. cbn [List.map List.filter].
    destruct (data_line_of p) as [H1 H2]. rewrite H1. cbn [List.map].
    rewrite H2, IH. reflexivity.
  Qed.

  (** The lines the read loop hands over contain no newline, and followed by
      one newline each they spell the decoded text up to a last piece with no
      newline (the unterminated tail left in the buffer). *)
Theorem read_loop_framing {D : Type} (decode : D -> list Byte.byte -> D * string)
      (ds : D) (chunks : list (list Byte.byte)) :
    exists tail,
      no_nl tail = true /\
      Forall (fun l => no_nl l = true) (read_loop decode ds EmptyString chunks) /\
      decoded_text decode ds chunks =
        String.append (unlines (read_loop decode ds EmptyString chunks)) tail.
  Proof.
    rewrite read_loop_lines by reflexivity. rewrite append_nil_l.
    destruct (decompose (decoded_text decode ds chunks)) as (ls & b & Hls & Hb & E).
    rewrite E, lines_of_unlines by assumption.
    exists b. split; [exact Hb |]. split; [exact Hls | reflexivity].
  Qed.

End SseLineFacts.

Module SingleRunMoreFacts.
  Import Data SingleRun.

Lemma results_in_cons (parse : string -> option Frame) (l : string) (ls : list string) :
    results_in parse (l :: ls) = results_in parse [l] ++ results_in parse ls.
  Proof.
    unfold results_in, Sse.frames, Sse.payloads. cbn [List.filter].
    destruct (Sse.is_data_line l); [| reflexivity].
    simpl. destruct (parse (Sse.slice6 l)) as [f |]; [| reflexivity].
    simpl. destruct (result_of f); reflexivity.
  Qed.

Lemma handle_line_results (parse : string -> option Frame) (st : SimState) (l : string) :
    completeCalls (handle_line parse st l) =
      (completeCalls st + length (results_in parse [l]))%nat /\
    result (handle_line parse st l) =
      List.last (List.map Some (results_in parse [l])) (result st).
  Proof.
    unfold handle_line, results_in, Sse.frames, Sse.payloads. cbn [List.filter].
    destruct (Sse.is_data_line l);
      [destruct (parse (Sse.slice6 l)) as [f |] eqn:Ep; [destruct f |] |];
      cbn; rewrite ?Ep; cbn; split; lia || reflexivity.
  Qed.

Lemma last_cons_shift {A : Type} (x d : A) (l : list A) :
    List.last (x :: l) d = List.last l x.
  Proof.
    revert x d. induction l as [| y l IH]; intros x d; [reflexivity |].
    change (List.last (x :: y :: l) d) with (List.last (y :: l) d). rewrite !(IH y). reflexivity.
  Qed.

Lemma last_app_shift {A : Type} (l1 l2 : list A) (d : A) :
    List.last (l1 ++ l2) d = List.last l2 (List.last l1 d).
  Proof.
    revert d. induction l1 as [| x l1 IH]; intros d; [reflexivity |].
    rewrite <- app_comm_cons, !last_cons_shift. apply IH.
  Qed.

Lemma last_map_app {A : Type} (l1 l2 : list A) (d : option A) :
    List.last (List.map Some (l1 ++ l2)) d =
    List.last (List.map Some l2) (List.last (List.map Some l1) d).
  Proof. rewrite map_app. apply last_app_shift. Qed.

Lemma fold_handle_results (parse : string -> option Frame) (lines : list string) :
    forall st,
      completeCalls (fold_left (handle_line parse) lines st) =
        (completeCalls st + length (results_in parse lines))%nat /\
      result (fold_left (handle_line parse) lines st) =
        List.last (List.map Some (results_in parse lines)) (result st).
  Proof.
    induction lines as [| l ls IH]; intros st; cbn [fold_left].
    - cbn. split; [lia | reflexivity].
    - destruct (handle_line_results parse st l) as [C1 R1].
      destruct (IH (handle_line parse st l)) as [C2 R2].
      rewrite C2, R2, C1, R1, (results_in_cons parse l ls), length_app, last_map_app.
      split; [lia | reflexivity].
  Qed.

  (** Every run that does not read an accepted stream to its end ends in the
      [catch]: refundStake is called once, the surfaced error is the message
      of what was thrown, and the run ends (isRunning false, no progress).
      Before the stream is read ([fetch] rejects, the response is rejected
      or has no body) no post, no result and no completeSimulation call are
      left; the message is the server's [detail] when it is a non-empty
      string or another truthy value, ["Simulation failed"] when it is
      falsy, and the error of [response.json()] when the body is not JSON.
      When a read fails mid-stream, the posts and results of the lines
      handed over before are kept, as are their completeSimulation calls. *)
Theorem failed_request_refunds {D : Type} (parse : string -> option Frame)
      (decode : D -> list Byte.byte -> D * string) (ds : D) (resp : Response) :
    match resp with ROk _ => False | _ => True end ->
    let r := runSimulation parse decode ds resp in
    refundCalls r = 1%nat /\ isRunning r = false /\ progress r = None /\
    match resp with
    | RFetchFails t =>
        error r = Some (err_message t) /\
        completeCalls r = 0%nat /\ tweets r = [] /\ result r = None
    | RNotOk b =>
        error r = Some (match b with
                        | DetailString m =>
                            if String.eqb m "" then "Simulation failed"%string else m
                        | DetailFalsy => "Simulation failed"%string
                        | DetailValue v => v
                        | BodyThrows t => err_message t
                        end) /\
        completeCalls r = 0%nat /\ tweets r = [] /\ result r = None
    | RNoBody =>
        error r = Some "No response body"%string /\
        completeCalls r = 0%nat /\ tweets r = [] /\ result r = None
    | ROkReadFails chunks t =>
        let L := Sse.read_loop decode ds EmptyString chunks in
        error r = Some (err_message t) /\
        tweets r = tweets_in parse L /\
        completeCalls r = length (results_in parse L) /\
        result r = List.last (List.map Some (results_in parse L)) None
    | ROk _ => True
    end.
  Proof.
    intros Hr. destruct resp as [t | b | | chunks | chunks t]; [| | | contradiction |];
      cbv zeta; unfold runSimulation.
    - cbn. repeat split.
    - destruct b as [m | | v | t]; cbn; repeat split.
    - cbn. repeat split.
    - destruct (SingleRunFacts.fold_handle_lines parse
                  (Sse.read_loop decode ds EmptyString chunks) start_state) as (_ & R & T).
      destruct (fold_handle_results parse (Sse.read_loop decode ds EmptyString chunks)
                  start_state) as [C Rs].
      cbn [sim_catch tweets error refundCalls isRunning progress completeCalls result].
      rewrite R, T, C, Rs. repeat split.
  Qed.

Lemma failed_request_refunds_witness :
    error (runSimulation Samples.sim_parse Sse.ascii_decode tt
             (RNotOk (BodyThrows (JsError "SyntaxError" "Unexpected token")))) =
    Some "Unexpected token"%string.
  Proof.
    exact (proj1 (proj2 (proj2 (proj2
             (failed_request_refunds Samples.sim_parse Sse.ascii_decode tt
                (RNotOk (BodyThrows (JsError "SyntaxError" "Unexpected token"))) I))))).
  Defined.

  (** On a stream the server accepted, completeSimulation is called once per
      [result] frame among the handed-over lines, and the kept result is the
      one of the last [result] frame (none if there is none). *)
Theorem result_frames_complete {D : Type} (parse : string -> option Frame)
      (decode : D -> list Byte.byte -> D * string) (ds : D)
      (chunks : list (list Byte.byte)) :
    let L := Sse.read_loop decode ds EmptyString chunks in
    let r := runSimulation parse decode ds (ROk chunks) in
    completeCalls r = length (results_in parse L) /\
    result r = List.last (List.map Some (results_in parse L)) None.
  Proof.
    cbv zeta. unfold runSimulation.
    destruct (fold_handle_results parse (Sse.read_loop decode ds EmptyString chunks)
                start_state) as [C R].
    cbn [completeCalls result]. rewrite C, R. split; reflexivity.
  Qed.

End SingleRunMoreFacts.

Module HarnessMoreFacts.
  Import Data Harness.

  (** Once a [done] or [run_completed] event is handled, the loop returns:
      nothing after that line is read. *)
Theorem stops_at_end (parse : string -> option HEvent) (cur : option Experiment)
      (st : HState) (ls1 rest rest' : list string) (l : string) (ev : HEvent) :
    Sse.is_data_line l = true -> parse (Sse.slice6 l) = Some ev -> ends_run ev = true ->
    harness_lines parse cur st (ls1 ++ l :: rest) =
    harness_lines parse cur st (ls1 ++ l :: rest').
  Proof.
    intros Hl Hp He. revert st.
    induction ls1 as [| l1 ls1 IH]; intros st; cbn [app harness_lines].
    - rewrite Hl, Hp, He. reflexivity.
    - destruct (Sse.is_data_line l1); [| apply IH].
      destruct (parse (Sse.slice6 l1)) as [ev1 |]; [| apply IH].
      destruct (ends_run ev1); [reflexivity | apply IH].
  Qed.

Lemma stops_at_end_witness :
    harness_lines Samples.harness_parse None start_state ["data: R"; "data: E"] =
    harness_lines Samples.harness_parse None start_state ["data: R"].
  Proof.
    exact (stops_at_end Samples.harness_parse None start_state [] ["data: E"] []
             "data: R" ERunCompleted eq_refl eq_refl eq_refl).
  Defined.

Lemma event_counters (cur : option Experiment) (st : HState) (ev : HEvent) :
    h_completeCalls (handleHarnessEvent cur st ev) = h_completeCalls st /\
    h_refundCalls (handleHarnessEvent cur st ev) = h_refundCalls st /\
    finalRefresh (handleHarnessEvent cur st ev) = finalRefresh st.
  Proof. destruct ev; cbn; try destruct cur; repeat split. Qed.

Lemma lines_counters (parse : string -> option HEvent) (cur : option Experiment)
      (ls : list string) :
    forall st,
      h_refundCalls (fst (harness_lines parse cur st ls)) = h_refundCalls st /\
      h_completeCalls (fst (harness_lines parse cur st ls)) =
        (h_completeCalls st + if snd (harness_lines parse cur st ls) then 1 else 0)%nat /\
      finalRefresh (fst (harness_lines parse cur st ls)) =
        (finalRefresh st || snd (harness_lines parse cur st ls)).
  Proof.
    induction ls as [| l ls IH]; intros st; cbn [harness_lines].
    - cbn. rewrite orb_false_r. split; [reflexivity | split; [lia | reflexivity]].
    - destruct (Sse.is_data_line l); [| apply IH].
      destruct (parse (Sse.slice6 l)) as [ev |]; [| apply IH].
      destruct (event_counters cur st ev) as (C & R & F).
      destruct (ends_run ev); cbn [fst snd h_refundCalls h_completeCalls finalRefresh].
      + rewrite C, R. rewrite orb_true_r. split; [reflexivity | split; [lia | reflexivity]].
      + destruct (IH (handleHarnessEvent cur st ev)) as (R2 & C2 & F2).
        rewrite R2, C2, F2, C, R, F. split; [reflexivity | split; reflexivity].
  Qed.

  (** startHarness settles the stake at most once, and which settlement it
      makes depends on how the run ends. completeSimulation is called
      exactly when the success refresh runs, that is when a handed-over line
      is a [done] or [run_completed] frame. refundStake is called for every
      error thrown before that, except an [AbortError] (the one [stop()]
      causes). A stream read to its end without such a frame settles
      nothing: the stake stays pending. *)
Theorem harness_settles_once {Dd : Type} (parse : string -> option HEvent)
      (decode : Dd -> list Byte.byte -> Dd * string) (ds : Dd)
      (cur : option Experiment) (resp : Responses) :
    let r := startHarness parse decode ds cur resp in
    (h_completeCalls r + h_refundCalls r <= 1)%nat /\
    (h_completeCalls r = 1%nat <-> finalRefresh r = true) /\
    match resp with
    | StartFetchFails t | StartBodyThrows t | StreamFetchFails t =>
        h_completeCalls r = 0%nat /\ (h_refundCalls r = 1%nat <-> is_abort t = false)
    | StartNotOk b =>
        h_completeCalls r = 0%nat /\
        (h_refundCalls r = 1%nat <->
         match b with BodyThrows t => is_abort t = false | _ => True end)
    | StreamNotOk | StreamNoBody =>
        h_completeCalls r = 0%nat /\ h_refundCalls r = 1%nat
    | StreamOk chunks =>
        h_refundCalls r = 0%nat /\
        (h_completeCalls r = 1%nat <->
         has_end_line parse (Sse.read_loop decode ds EmptyString chunks) = true)
    | StreamReadFails chunks t =>
        if has_end_line parse (Sse.read_loop decode ds EmptyString chunks)
        then h_completeCalls r = 1%nat /\ h_refundCalls r = 0%nat
        else h_completeCalls r = 0%nat /\ (h_refundCalls r = 1%nat <-> is_abort t = false)
    end.
  Proof.
    cbv zeta. unfold startHarness.
    destruct resp as [t | b | t | t | | | chunks | chunks t].
    - unfold harness_catch. destruct (is_abort t); cbn; repeat split; try lia;
        try discriminate; tauto.
    - destruct b as [m | | v | t]; unfold rejected_error, harness_catch;
        [| | | destruct (is_abort t)]; cbn; repeat split; try lia; try discriminate; tauto.
    - unfold harness_catch. destruct (is_abort t); cbn; repeat split; try lia;
        try discriminate; tauto.
    - unfold harness_catch. destruct (is_abort t); cbn; repeat split; try lia;
        try discriminate; tauto.
    - cbn. repeat split; lia.
    - cbn. repeat split; lia.
    - pose proof (HarnessFacts.lines_end parse cur (Sse.read_loop decode ds EmptyString chunks)
                    start_state) as Hend.
      destruct (lines_counters parse cur (Sse.read_loop decode ds EmptyString chunks)
                  start_state) as (R & C & F).
      cbn [h_completeCalls h_refundCalls finalRefresh].
      rewrite R, C, F, <- Hend. cbn.
      destruct (snd (harness_lines parse cur start_state _)); cbn;
        repeat split; try lia; try discriminate; tauto.
    - pose proof (HarnessFacts.lines_end parse cur (Sse.read_loop decode ds EmptyString chunks)
                    start_state) as Hend.
      destruct (lines_counters parse cur (Sse.read_loop decode ds EmptyString chunks)
                  start_state) as (R & C & F).
      destruct (harness_lines parse cur start_state
                  (Sse.read_loop decode ds EmptyString chunks)) as [st ret].
      cbn [fst snd] in Hend, R, C, F. rewrite <- Hend. cbn in R, C, F.
      destruct ret; cbn [h_completeCalls h_refundCalls finalRefresh].
      + rewrite R, C, F. cbn. repeat split; try lia; try discriminate; tauto.
      + unfold harness_catch. destruct (is_abort t); cbn [h_completeCalls h_refundCalls finalRefresh];
          rewrite R, C, F; cbn; repeat split; try lia; try discriminate; tauto.
  Qed.

Lemma event_experiments (cur : option Experiment) (st : HState) (ev : HEvent) :
    Forall (fun e => e_status e = "completed"%string /\ e_progress e = None) (experiments st) ->
    Forall (fun e => e_status e = "completed"%string /\ e_progress e = None)
      (experiments (handleHarnessEvent cur st ev)).
  Proof.
    intros H. destruct ev; cbn; try destruct cur; try exact H;
      apply Forall_app; (split; [exact H | constructor; [split; reflexivity | constructor]]).
  Qed.

Lemma lines_experiments (parse : string -> option HEvent) (cur : option Experiment)
      (ls : list string) :
    forall st,
      Forall (fun e => e_status e = "completed"%string /\ e_progress e = None) (experiments st) ->
      Forall (fun e => e_status e = "completed"%string /\ e_progress e = None)
        (experiments (fst (harness_lines parse cur st ls))).
  Proof.
    induction ls as [| l ls IH]; intros st H; cbn [harness_lines]; [exact H |].
    destruct (Sse.is_data_line l); [| now apply IH].
    destruct (parse (Sse.slice6 l)) as [ev |]; [| now apply IH].
    destruct (ends_run ev); cbn [fst experiments].
    - now apply event_experiments.
    - apply IH. now apply event_experiments.
  Qed.

  (** Every experiment startHarness lists for the run has status
      ["completed"] and no live progress: a running experiment is only ever
      the current experiment, never in the list. *)
Theorem listed_experiments_completed {Dd : Type} (parse : string -> option HEvent)
      (decode : Dd -> list Byte.byte -> Dd * string) (ds : Dd)
      (cur : option Experiment) (resp : Responses) :
    Forall (fun e => e_status e = "completed"%string /\ e_progress e = None)
      (experiments (startHarness parse decode ds cur resp)).
  Proof.
    assert (Hc : forall st t, experiments (harness_catch st t) = experiments st)
      by (intros st t; unfold harness_catch; destruct (is_abort t); reflexivity).
    unfold startHarness.
    destruct resp as [t | b | t | t | | | chunks | chunks t];
      cbn [experiments]; rewrite ?Hc; try constructor.
    - apply lines_experiments. constructor.
    - pose proof (lines_experiments parse cur (Sse.read_loop decode ds EmptyString chunks)
                    start_state (List.Forall_nil _)) as Hl.
      destruct (harness_lines parse cur start_state
                  (Sse.read_loop decode ds EmptyString chunks)) as [st ret].
      cbn [fst] in Hl. destruct ret; cbn [experiments]; rewrite ?Hc; exact Hl.
  Qed.

  (** [handleHarnessEvent] reads [currentExperiment] from the render that
      started the run. When that snapshot is empty (as on the first run of
      the page), [simulation_progress] events have no effect:
      dropping them from the lines changes nothing. *)
Theorem progress_ignored_without_snapshot (parse : string -> option HEvent)
      (st : HState) (ls : list string) :
    harness_lines parse None st ls =
    harness_lines parse None st (List.filter (fun l => negb (is_progress_line parse l)) ls).
  Proof.
    revert st. induction ls as [| l ls IH]; intros st; [reflexivity |].
    cbn [List.filter]. unfold is_progress_line at 1.
    destruct (Sse.is_data_line l) eqn:Hl; cbn [andb negb harness_lines]; rewrite ?Hl.
    - destruct (parse (Sse.slice6 l)) as [ev |] eqn:Hp; cbn [negb]; cbn [harness_lines];
        rewrite ?Hl, ?Hp; [| apply IH].
      destruct ev; cbn [negb harness_lines]; rewrite ?Hl, ?Hp; try apply IH;
        cbn [ends_run]; try reflexivity; apply IH.
    - apply IH.
  Qed.

End HarnessMoreFacts.

Module ThreadsShapeFacts.
  Import Data Threads.

Lemma target_spec (t : TweetData) (q : bool) (tgt : string) :
    target t = Some (q, tgt) ->
    (q = false /\ tweet_type t = Some Reply /\ is_reply_to t = Some tgt) \/
    (q = true /\ tweet_type t = Some Quote /\ quotes_tweet t = Some tgt).
  Proof.
    unfold target. destruct (tweet_type t) as [[] |]; try discriminate.
    - destruct (truthy (is_reply_to t)); [| discriminate].
      destruct (is_reply_to t); cbn; [| discriminate]. intros E. injection E as <- <-. auto.
    - destruct (truthy (quotes_tweet t)); [| discriminate].
      destruct (quotes_tweet t); cbn; [| discriminate]. intros E. injection E as <- <-. auto.
  Qed.

Lemma attach_nested (q : bool) (tgt : string) (t : TweetData) (T : list Thread) :
    target t = Some (q, tgt) -> Forall nested_ok T ->
    forall T', attach q tgt t T = Some T' -> Forall nested_ok T'.
  Proof.
    intros Ht. induction T as [| th T IH]; intros HT T' E; cbn [attach] in E; [discriminate |].
    inversion HT as [| ? ? Hth HT']; subst.
    destruct (String.eqb_spec (id (parent th)) tgt) as [Heq | _].
    - injection E as <-. constructor; [| exact HT'].
      destruct Hth as [Hr Hq].
      destruct (target_spec t q tgt Ht) as [(-> & Hty & Hto) | (-> & Hty & Hto)];
        unfold nested_ok; cbn [parent t_replies t_quotes].
      + split; [| exact Hq]. apply Forall_app. split; [exact Hr |].
        constructor; [| constructor]. split; [exact Hty | rewrite Heq; exact Hto].
      + split; [exact Hr |]. apply Forall_app. split; [exact Hq |].
        constructor; [| constructor]. split; [exact Hty | rewrite Heq; exact Hto].
    - destruct (attach q tgt t T) as [T1 |]; cbn in E; [| discriminate].
      injection E as <-. constructor; [exact Hth | now apply IH].
  Qed.

Lemma pass2_nested (ts : list TweetData) :
    forall T U, Forall nested_ok T -> Forall nested_ok (fst (pass2 T U ts)).
  Proof.
    induction ts as [| t ts IH]; intros T U HT; cbn [pass2]; [exact HT |].
    destruct (mem (id t) U); [now apply IH |].
    destruct (target t) as [[q tgt] |] eqn:Ht; [| now apply IH].
    destruct (attach q tgt t T) as [T' |] eqn:Ea; [| now apply IH].
    apply IH. exact (attach_nested q tgt t T Ht HT T' Ea).
  Qed.

Lemma standalone_nested (l : list TweetData) : Forall nested_ok (List.map standalone l).
  Proof.
    induction l as [| t l IH]; constructor; [split; constructor | exact IH].
  Qed.

  (** Every thread groupTweetsIntoThreads builds nests only fitting posts:
      each reply has type reply and is_reply_to = the parent's id, each
      quote has type quote and quotes_tweet = the parent's id. *)
Theorem threads_nest_by_target (tweets : list TweetData) :
    Forall nested_ok (groupTweetsIntoThreads tweets).
  Proof.
    unfold groupTweetsIntoThreads.
    pose proof (pass2_nested tweets (List.map standalone (List.filter is_root tweets))
                  (List.map id (List.filter is_root tweets)) (standalone_nested _)) as H.
    destruct (pass2 _ _ tweets) as [T2 U2]. cbn in H.
    apply Forall_app. split; [exact H | apply standalone_nested].
  Qed.

End ThreadsShapeFacts.

(** Bounds on sums and means of sentiments in [-1, 1]. *)
Module SentimentBounds.
  Import Data.

Lemma inject_succ (n : nat) :
    (inject_Z (Z.of_nat (S n)) == inject_Z (Z.of_nat n) + 1)%Q.
  Proof. rewrite Nat2Z.inj_succ. unfold Z.succ. rewrite inject_Z_plus. reflexivity. Qed.

Lemma inject_nonneg (n : nat) : (0 <= inject_Z (Z.of_nat n))%Q.
  Proof. change 0%Q with (inject_Z 0). rewrite <- Zle_Qle. lia. Qed.

Lemma sum_bound (ts : list TweetData) :
    Forall (fun t => -1 <= sentiment t <= 1)%Q ts ->
    forall a,
      (a - inject_Z (Z.of_nat (length ts)) <= fold_left (fun s t => s + sentiment t) ts a)%Q /\
      (fold_left (fun s t => s + sentiment t) ts a <= a + inject_Z (Z.of_nat (length ts)))%Q.
  Proof.
    induction 1 as [| t ts [Hl Hu] _ IH]; intros a; cbn [fold_left length].
    - change (inject_Z (Z.of_nat 0)) with 0%Q. split; lra.
    - destruct (IH (a + sentiment t)%Q) as [IHl IHu].
      pose proof (inject_succ (length ts)). split; lra.
  Qed.

Lemma mean_bound (ts : list TweetData) :
    ts <> [] -> Forall (fun t => -1 <= sentiment t <= 1)%Q ts ->
    (-1 <= fold_left (fun s t => s + sentiment t) ts 0 / inject_Z (Z.of_nat (length ts)) <= 1)%Q.
  Proof.
    intros Hne Hb. destruct (sum_bound ts Hb 0) as [Hl Hu].
    assert (Hpos : (0 < inject_Z (Z.of_nat (length ts)))%Q).
    { destruct ts as [| t ts]; [contradiction |].
      pose proof (inject_succ (length ts)). pose proof (inject_nonneg (length ts)).
      cbn [length]. lra. }
    split.
    - apply Qle_shift_div_l; [exact Hpos | lra].
    - apply Qle_shift_div_r; [exact Hpos | lra].
  Qed.

End SentimentBounds.

Module ChartPlotFacts.
  Import Data Chart SentimentBounds.

Lemma ratio_unit (a b : Q) : (0 <= a)%Q -> (a <= b)%Q -> (0 < b)%Q -> (0 <= a / b <= 1)%Q.
  Proof.
    intros Ha Hab Hb. split.
    - apply Qle_shift_div_l; [exact Hb | lra].
    - apply Qle_shift_div_r; [exact Hb | lra].
  Qed.

  (** When every post's sentiment is in [-1, 1] and the chart is drawn (at
      least two points), every point of the sentiment path lies inside the
      plot area: x between the left and right padding, y between the top and
      bottom padding. *)
Theorem chart_inside_plot (tweets : list TweetData) :
    Forall (fun t => -1 <= sentiment t <= 1)%Q tweets ->
    (2 <= length (chartData tweets))%nat ->
    Forall (fun d =>
              (pad_left <= xScale (length (chartData tweets)) (pt_hour d) <= width - pad_right)%Q /\
              (pad_top <= yScale (pt_sentiment d) <= height - pad_bottom)%Q)
      (chartData tweets).
  Proof.
    intros Hb Hlen.
    destruct tweets as [| t0 ts0] eqn:Etw; [cbn in Hlen; lia |].
    rewrite <- Etw in *.
    assert (Hc : chartData tweets =
                 List.map (point_at (byHour tweets)) (List.seq 0 (S (maxHour (byHour tweets))))).
    { rewrite Etw. reflexivity. }
    rewrite Hc in *. rewrite length_map, length_seq in *.
    apply Forall_map, List.Forall_forall. intros h Hh.
    apply in_seq in Hh as [_ Hh]. cbn [Nat.add] in Hh.
    set (n := S (maxHour (byHour tweets))) in *.
    split.
    - unfold point_at. cbn [pt_hour]. unfold xScale, chartWidth, width, pad_left, pad_right.
      assert (Hx : (inject_Z (Z.of_nat h) <= inject_Z (Z.of_nat n) - 1)%Q).
      { assert (Z.of_nat h + 1 <= Z.of_nat n) as Hz by lia.
        rewrite Zle_Qle, inject_Z_plus in Hz. change (inject_Z 1) with 1%Q in Hz. lra. }
      assert (Hn : (1 <= inject_Z (Z.of_nat n) - 1)%Q).
      { assert (2 <= Z.of_nat n) as Hz by lia. rewrite Zle_Qle in Hz.
        change (inject_Z 2) with 2%Q in Hz. lra. }
      destruct (ratio_unit (inject_Z (Z.of_nat h)) (inject_Z (Z.of_nat n) - 1)
                  (inject_nonneg h) Hx ltac:(lra)).
      split; lra.
    - unfold point_at. cbn [pt_sentiment].
      assert (Hs : (-1 <= match byHour tweets !! h with
                          | Some (total, count) => total / inject_Z (Z.of_nat count)
                          | None => 0 end <= 1)%Q).
      { rewrite ChartFacts.byHour_at.
        destruct (posts_at tweets h) as [| p ps] eqn:Ep; [split; lra |].
        rewrite <- Ep. apply mean_bound; [rewrite Ep; discriminate |].
        apply List.Forall_forall. intros t Ht. unfold posts_at in Ht.
        apply filter_In in Ht as [Ht _]. rewrite List.Forall_forall in Hb. now apply Hb. }
      revert Hs. generalize (match byHour tweets !! h with
                              | Some (total, count) => (total / inject_Z (Z.of_nat count))%Q
                              | None => 0%Q end).
      intros s [Hs1 Hs2].
      unfold yScale, chartHeight, height, pad_top, pad_bottom.
      assert (E : ((1 - s) / 2 * (100 - 10 - 20) == 35 - 35 * s)%Q) by field.
      rewrite E. split; lra.
  Qed.

Lemma chart_inside_plot_witness :
    Forall (fun d =>
              (pad_left <= xScale (length (chartData Samples.scenario)) (pt_hour d)
                 <= width - pad_right)%Q /\
              (pad_top <= yScale (pt_sentiment d) <= height - pad_bottom)%Q)
      (chartData Samples.scenario).
  Proof.
    apply chart_inside_plot.
    - repeat constructor; vm_compute; discriminate.
    - vm_compute. lia.
  Defined.

End ChartPlotFacts.

Module PersonaMoreFacts.
  Import Data Persona SentimentBounds.

Lemma upd_count (ty : string) (t : TweetData) (e : nat) (l : list (string * Group)) :
    group_count (upd ty t e l) = S (group_count l).
  Proof.
    induction l as [| [k g] l IH]; cbn [upd group_count List.fold_right]; [reflexivity |].
    destruct (String.eqb k ty); cbn [group_count List.fold_right fst snd g_tweets].
    - fold (group_count l). rewrite length_app. cbn [length]. lia.
    - fold (group_count l) (group_count (upd ty t e l)). rewrite IH. lia.
  Qed.

  (** The groups stay non-empty and only hold posts satisfying [P] when
      every post added satisfies it. *)
Lemma upd_groups (P : TweetData -> Prop) (ty : string) (t : TweetData) (e : nat)
      (l : list (string * Group)) :
    P t -> Forall (fun kv => g_tweets (snd kv) <> [] /\ Forall P (g_tweets (snd kv))) l ->
    Forall (fun kv => g_tweets (snd kv) <> [] /\ Forall P (g_tweets (snd kv))) (upd ty t e l).
  Proof.
    intros Ht. induction l as [| [k g] l IH]; intros Hl; cbn [upd].
    - constructor; [| constructor]. cbn. split; [discriminate | repeat constructor; exact Ht].
    - inversion Hl as [| ? ? [Hne Hg] Hl']; subst.
      destruct (String.eqb k ty); constructor; cbn [fst snd g_tweets] in *.
      + split; [destruct (g_tweets g); discriminate |].
        apply Forall_app. split; [exact Hg | repeat constructor; exact Ht].
      + exact Hl'.
      + split; assumption.
      + now apply IH.
  Qed.

Lemma grouped_counts (P : TweetData -> Prop) (ts : list TweetData) :
    forall l n,
      Forall P ts ->
      Forall (fun kv => g_tweets (snd kv) <> [] /\ Forall P (g_tweets (snd kv))) l ->
      let l' := fst (fold_left group_step ts (l, n)) in
      group_count l' = (group_count l + length ts)%nat /\
      Forall (fun kv => g_tweets (snd kv) <> [] /\ Forall P (g_tweets (snd kv))) l'.
  Proof.
    induction ts as [| t ts IH]; intros l n Hts Hl; cbn zeta; cbn [fold_left length].
    - split; [cbn [fst]; lia | exact Hl].
    - inversion Hts as [| ? ? Ht Hts']; subst.
      unfold group_step at 2. cbn [fst snd].
      destruct (IH (upd (author_type t) t (engagement t) l) (n + engagement t)%nat Hts'
                   (upd_groups P _ _ _ l Ht Hl)) as [C G].
      split; [rewrite C, upd_count; lia | exact G].
  Qed.

Lemma count_sum_perm (l1 l2 : list PersonaStats) :
    Permutation l1 l2 -> count_sum l1 = count_sum l2.
  Proof.
    induction 1 as [| x l1 l2 _ IH | x y l | l1 l2 l3 _ IH1 _ IH2];
      cbn [count_sum List.fold_right]; try lia.
    fold (count_sum l1) (count_sum l2). lia.
  Qed.

Lemma count_sum_entries (T : nat) (l : list (string * Group)) :
    count_sum (List.map (mk_entry T) l) = group_count l.
  Proof.
    induction l as [| [k g] l IH]; [reflexivity |].
    cbn [List.map count_sum List.fold_right group_count mk_entry tweetCount fst snd].
    fold (count_sum (List.map (mk_entry T) l)) (group_count l). now rewrite IH.
  Qed.

Lemma stats_shape (tweets : list TweetData) :
    tweets <> [] ->
    exists l, Permutation (stats tweets) (List.map (mk_entry (grand_total tweets)) l) /\
              l = fst (fold_left group_step tweets ([], 0%nat)) /\
              Sorted PersonaFacts.desc (stats tweets).
  Proof.
    intros Hne.
    pose proof (PersonaFacts.grouped_spec tweets [] 0%nat (List.NoDup_nil _)) as Hg.
    destruct (fold_left group_step tweets ([], 0%nat)) as [l n] eqn:Eg.
    destruct Hg as (Hn & _). cbn in Hn.
    assert (Hst : stats tweets = sort_desc (List.map (mk_entry n) l)).
    { unfold stats, grouped. destruct tweets; [contradiction |]. rewrite Eg. reflexivity. }
    exists l. rewrite Hst, Hn. split; [apply PersonaFacts.sort_perm |].
    split; [reflexivity | apply PersonaFacts.sort_sorted].
  Qed.

  (** Every post is counted once: the tweetCount of the PersonaImpact entries
      add up to the number of posts, and every entry counts at least one. *)
Theorem persona_counts (tweets : list TweetData) :
    count_sum (stats tweets) = length tweets /\
    Forall (fun e => (1 <= tweetCount e)%nat) (stats tweets).
  Proof.
    destruct tweets as [| t0 ts0] eqn:Etw; [split; [reflexivity | constructor] |].
    rewrite <- Etw. assert (Hne : tweets <> []) by (rewrite Etw; discriminate).
    destruct (stats_shape tweets Hne) as (l & Hp & El & _).
    destruct (grouped_counts (fun _ => True) tweets [] 0%nat
                (proj2 (List.Forall_forall _ _) (fun _ _ => I)) (List.Forall_nil _)) as [C G].
    cbv zeta in C, G. rewrite <- El in C, G.
    split.
    - rewrite (count_sum_perm _ _ Hp), count_sum_entries, C. reflexivity.
    - apply List.Forall_forall. intros e He.
      apply (Permutation_in _ Hp), in_map_iff in He as ([k g] & <- & Hkg).
      rewrite List.Forall_forall in G. destruct (G (k, g) Hkg) as [Hg _].
      cbn [mk_entry tweetCount]. cbn [snd] in Hg. destruct (g_tweets g); [contradiction |].
      cbn. lia.
  Qed.

  (** When every post's sentiment is in [-1, 1], so is the avgSentiment of
      every PersonaImpact entry (the value compared with 0.2 and -0.2 to pick
      the hype drivers and the FUD sources). *)
Theorem persona_avg_in_range (tweets : list TweetData) :
    Forall (fun t => -1 <= sentiment t <= 1)%Q tweets ->
    Forall (fun e => -1 <= avgSentiment e <= 1)%Q (stats tweets).
  Proof.
    intros Hb.
    destruct tweets as [| t0 ts0] eqn:Etw; [constructor |].
    rewrite <- Etw in *. assert (Hne : tweets <> []) by (rewrite Etw; discriminate).
    destruct (stats_shape tweets Hne) as (l & Hp & El & _).
    destruct (grouped_counts (fun t => -1 <= sentiment t <= 1)%Q tweets [] 0%nat Hb
                (List.Forall_nil _)) as [_ G].
    cbv zeta in G. rewrite <- El in G.
    apply List.Forall_forall. intros e He.
    apply (Permutation_in _ Hp), in_map_iff in He as ([k g] & <- & Hkg).
    rewrite List.Forall_forall in G. destruct (G (k, g) Hkg) as [Hg Hgb].
    cbn [mk_entry avgSentiment]. unfold sum_sentiment. cbn [snd] in Hg, Hgb.
    apply mean_bound; assumption.
  Qed.

Lemma persona_avg_in_range_witness :
    Forall (fun e => -1 <= avgSentiment e <= 1)%Q (stats Samples.scenario).
  Proof.
    apply persona_avg_in_range. repeat constructor; vm_compute; discriminate.
  Defined.

Lemma strongly_sorted_app {A : Type} (R : A -> A -> Prop) (l1 l2 : list A) :
    StronglySorted R (l1 ++ l2) -> forall x y, In x l1 -> In y l2 -> R x y.
  Proof.
    induction l1 as [| a l1 IH]; intros Hs x y Hx Hy; [destruct Hx |].
    inversion Hs as [| ? ? Hs' Hall]; subst.
    destruct Hx as [<- | Hx].
    - rewrite List.Forall_forall in Hall. apply Hall, in_or_app. now right.
    - now apply (IH Hs').
  Qed.

  (** The bar chart shows at most five archetypes, and none left out has a
      higher engagementPct than one shown. *)
Theorem bars_show_top_shares (tweets : list TweetData) :
    let st := stats tweets in
    (length (bars st) <= 5)%nat /\
    forall x y, In x (bars st) -> In y (List.skipn 5 st) ->
      (engagementPct y <= engagementPct x)%Q.
  Proof.
    cbv zeta. unfold bars. split; [rewrite length_firstn; lia |].
    assert (Hs : Sorted PersonaFacts.desc (stats tweets)).
    { destruct tweets as [| t0 ts0] eqn:Etw; [constructor |].
      rewrite <- Etw. assert (Hne : tweets <> []) by (rewrite Etw; discriminate).
      destruct (stats_shape tweets Hne) as (_ & _ & _ & Hs). exact Hs. }
    apply Sorted_StronglySorted in Hs;
      [| intros a b c Hab Hbc; unfold PersonaFacts.desc in *; eapply Qle_trans; eassumption].
    rewrite <- (firstn_skipn 5 (stats tweets)) in Hs.
    intros x y Hx Hy. exact (strongly_sorted_app _ _ _ Hs x y Hx Hy).
  Qed.

End PersonaMoreFacts.

Module ArenaFacts.
  Import Wallet Render Arena.

Lemma stake_at_self (a : Z) (h : Hook) : stake_at h a h = stake a h.
  Proof. reflexivity. Qed.

  (** On the arena page, a run started from a wallet with no pending stake
      never settles it: the completeSimulation (or refundStake) the click
      handler calls is the one of the render before the stake, whose
      pendingStake is null, so it returns at once. Whether the simulation
      succeeds or fails, the stake stays pending and the balance stays
      reduced by it. *)
Theorem arena_stake_stays_pending (h : Hook) (stake : Z) (response_ok : bool) :
    pendingStake h = None -> stake <= balance (wallet h) ->
    let h' := snd (handleRunSimulation true h stake response_ok) in
    h' = snd (Wallet.stake stake h) /\
    balance (wallet h') = balance (wallet h) - stake /\
    pendingStake h' = Some stake /\
    simulationsRun (wallet h') = simulationsRun (wallet h).
  Proof.
    intros Hp Hb. cbv zeta. unfold handleRunSimulation, canAfford.
    replace (stake <=? balance (wallet h)) with true by (symmetry; apply Z.leb_le; exact Hb).
    rewrite stake_at_self. unfold Wallet.stake.
    replace (stake >? balance (wallet h)) with false
      by (symmetry; rewrite Z.gtb_ltb; apply Z.ltb_ge; lia).
    cbn [andb negb]. unfold completeSimulation_at, refundStake_at. rewrite Hp.
    destruct response_ok; cbn; repeat split.
  Qed.

Lemma arena_stake_stays_pending_witness :
    pendingStake (snd (handleRunSimulation true initial 100 true)) = Some 100.
  Proof.
    exact (proj1 (proj2 (proj2 (arena_stake_stays_pending initial 100 true eq_refl
                                  ltac:(vm_compute; discriminate))))).
  Defined.

Lemma firstn_cons_firstn {A : Type} (x : A) (l : list A) :
    List.firstn 50 (x :: List.firstn 50 l) = List.firstn 50 (x :: l).
  Proof. cbn [List.firstn]. rewrite firstn_firstn. reflexivity. Qed.

  (** However many runs are added, the arena history is the 50 most recent
      entries, newest first: after adding [e1], ..., [en] (in that order) to
      [prev], it is the first 50 of [en, ..., e1] followed by [prev]. So it
      never holds more than 50 entries, and nothing is dropped while there
      are at most 50. *)
Theorem history_capped {A : Type} (e : A) (es : list A) (prev : list A) :
    let h := fold_left (fun h x => add_history x h) (e :: es) prev in
    h = List.firstn 50 (rev (e :: es) ++ prev) /\ (length h <= 50)%nat.
  Proof.
    assert (Hadd : forall (x : A) (l : list A), add_history x l = List.firstn 50 (x :: l)) by reflexivity.
    assert (Hgen : forall es0 h0 : list A, fold_left (fun h x => add_history x h) es0
                                    (List.firstn 50 h0) =
                                  List.firstn 50 (rev es0 ++ h0)).
    { induction es0 as [| x es0 IH]; intros h0; cbn [fold_left rev app]; [reflexivity |].
      rewrite Hadd, firstn_cons_firstn, IH, <- app_assoc. reflexivity. }
    cbv zeta. cbn [fold_left]. rewrite Hadd, Hgen. cbn [rev]. rewrite <- app_assoc.
    split; [reflexivity |]. rewrite length_firstn. lia.
  Qed.

End ArenaFacts.
